(** * MoldWing: the SPIR-V embedder [CMakeModules/spv_to_header.py]

    A shallow embedding of the script that turns a compiled shader binary
    into a C++ header holding a byte array and its size, together with the
    properties the specification states about it.

    Conventions of the embedding.
    - A Python [bytes] object is a [list byte]; a Python [str] is a Rocq
      [string], one character per element.
    - Files hold bytes.  Text written through a file opened in text mode
      goes through the text layer of the platform, character by character:
      the line feed becomes the platform's line separator and the other
      characters go through the platform's codec, which may refuse one.
      The layer is the section variable [layer]; [latin1_lf] is a POSIX
      system with an ISO-8859-1 locale, for which the bytes of a text are
      its characters ([encode]), and [cp1252_crlf] is a Windows system.
    - [str.upper] is a builtin of the language, not code of the repository:
      the development takes it as the section variable [upper].
      [ascii_upper] is its restriction to ASCII text and serves the concrete
      runs.
    - The runtime buffers text writes.  How many buffered bytes reach the
      disk after each [f.write] is the runtime's choice: the section
      variable [flushed]. *)

From Stdlib Require Import ZArith NArith Ascii String Strings.Byte List.
From Stdlib Require Import Lia Zify ZifyNat.
From Stdlib Require Import DecimalString DecimalNat.
From stdpp Require Import base option list gmap strings.

(** ** Builtins of the language used by the script *)

(** The line feed, written [\n] in the source. *)
Definition LF : string := String "010"%char EmptyString.

(** [str(n)] and [f"{n}"] for a non-negative integer: decimal digits
    without leading zeros, ["0"] for zero. *)
Definition str_of_nat (n : nat) : string :=
  NilEmpty.string_of_uint (Nat.to_uint n).

(** The digit of the [x] presentation type: lowercase hexadecimal. *)
Definition hex_digit (d : N) : ascii :=
  match d with
  | 0 => "0" | 1 => "1" | 2 => "2" | 3 => "3"
  | 4 => "4" | 5 => "5" | 6 => "6" | 7 => "7"
  | 8 => "8" | 9 => "9" | 10 => "a" | 11 => "b"
  | 12 => "c" | 13 => "d" | 14 => "e" | _ => "f"
  end%N%char.

(** [f"{b:02x}"] for an element [b] of a [bytes] object: [b] is below 256,
    so the zero-padded width-2 field is exactly the two digits. *)
Definition format_02x (b : byte) : string :=
  let n := Byte.to_N b in
  String (hex_digit (n / 16)) (String (hex_digit (n mod 16)) EmptyString).

(** [sep.join(parts)]. *)
Definition join (sep : string) (parts : list string) : string :=
  String.concat sep parts.

(** [range(start, stop, step)] for a positive [step]: the loop variable
    starts at [start] and advances by [step] while it is below [stop].
    At most [stop] values are produced, which bounds the recursion. *)
Fixpoint range_from (fuel start stop step : nat) : list nat :=
  match fuel with
  | O => []
  | S fuel' =>
      if (start <? stop)%nat
      then start :: range_from fuel' (start + step) stop step
      else []
  end.

Definition range (start stop step : nat) : list nat :=
  range_from stop start stop step.

(** [data[i:j]] for [0 <= i <= j]: out-of-range bounds are clipped. *)
Definition slice {A} (data : list A) (i j : nat) : list A :=
  take (j - i) (drop i data).

(** [os.path.basename(p)] (POSIX flavour): what follows the last slash. *)
Fixpoint basename_from (current p : string) : string :=
  match p with
  | EmptyString => current
  | String c rest =>
      if Ascii.eqb c "/" then basename_from EmptyString rest
      else basename_from (current +:+ String c EmptyString) rest
  end.

Definition basename (p : string) : string := basename_from EmptyString p.

(** [str.upper] on ASCII text. *)
Definition ascii_toupper (c : ascii) : ascii :=
  let n := nat_of_ascii c in
  if ((97 <=? n) && (n <=? 122))%nat then ascii_of_nat (n - 32) else c.

Fixpoint ascii_upper (s : string) : string :=
  match s with
  | EmptyString => EmptyString
  | String c rest => String (ascii_toupper c) (ascii_upper rest)
  end.

(** Text to bytes, as a text-mode file does it for one-byte characters. *)
Definition encode (s : string) : list byte := list_byte_of_string s.

(** The text layer of a platform: the bytes a file opened in text mode
    writes for one character, or [None] when the codec of the platform
    cannot encode the character. *)
Definition text_layer : Type := ascii → option (list byte).

(** The bytes of a text under a layer; [None] when a character of the text
    cannot be encoded. *)
Fixpoint encode_with (layer : text_layer) (s : string) : option (list byte) :=
  match s with
  | EmptyString => Some []
  | String c rest =>
      match layer c, encode_with layer rest with
      | Some bytes, Some bytes' => Some (bytes ++ bytes')
      | _, _ => None
      end
  end.

(** A POSIX system with an ISO-8859-1 locale: every character is one byte
    and the line feed stays a line feed. *)
Definition latin1_lf : text_layer := λ c, Some [byte_of_ascii c].

(** A Windows system with the code page 1252: the line feed becomes
    carriage return and line feed, and the code points 128 to 159 have no
    byte in the code page. *)
Definition cp1252_crlf : text_layer := λ c,
  let n := nat_of_ascii c in
  if (n =? 10)%nat then Some [x0d; x0a]
  else if ((128 <=? n) && (n <=? 159))%nat then None
  else Some [byte_of_ascii c].

(** ** The rows of the data array (source lines 35 to 38) *)

(** The argument of the [f.write] of one turn of the loop, for the loop
    variable [i]. *)
Definition row_text (spv_data : list byte) (i : nat) : string :=
  let chunk := slice spv_data i (i + 12) in
  let hex_values := join ", " (map (λ b, "0x" +:+ format_02x b) chunk) in
  "    " +:+ hex_values +:+ "," +:+ LF.

(** The arguments of the successive [f.write] calls of the loop. *)
Definition data_rows (spv_data : list byte) : list string :=
  map (row_text spv_data) (range 0 (length spv_data) 12).

(** The pieces the loop cuts the input into. *)
Definition data_chunks (spv_data : list byte) : list (list byte) :=
  map (λ i, slice spv_data i (i + 12)) (range 0 (length spv_data) 12).

(** The text of the array body: everything the loop writes. *)
Definition body_text (spv_data : list byte) : string :=
  String.concat "" (data_rows spv_data).

(** ** The process and its environment *)

(** What a path names. *)
Inductive node :=
| File (content : list byte)
| Dir.

(** The environment of one run.  [fs] maps the existing paths to what they
    name; a path stands for the file the system resolves it to, so that two
    spellings of one file are not told apart here, and every file that
    exists can be read.  [refused] holds the paths the system will not open for writing
    (missing parent directory, permissions).  [stdout] and [stderr] hold
    what the script has written to the two streams.  [fuse] is the number
    of input/output operations the process still performs before it is
    killed from outside; [None] when it is left to run. *)
Record world := World {
  fs : gmap string node;
  refused : gset string;
  stdout : string;
  stderr : string;
  fuse : option nat
}.

Definition with_fs (m : gmap string node) (w : world) : world :=
  World m (refused w) (stdout w) (stderr w) (fuse w).
Definition with_stdout (s : string) (w : world) : world :=
  World (fs w) (refused w) s (stderr w) (fuse w).
Definition with_fuse (k : option nat) (w : world) : world :=
  World (fs w) (refused w) (stdout w) (stderr w) k.

(** The exceptions a run can end with; [Killed] stands for the death of the
    process, after which nothing runs, not even the exit of a [with]. *)
Inductive exn :=
| FileNotFoundError (path : string)
| IsADirectoryError (path : string)
| OSError (path : string)
| IndexError
| UnicodeEncodeError
| SystemExit (code : Z)
| Killed.

Inductive outcome (A : Type) :=
| Ok (a : A)
| Raise (e : exn).
Arguments Ok {A} a.
Arguments Raise {A} e.

(** Computations of the script: they read and change the world and either
    return a value or raise. *)
Definition M (A : Type) : Type := world → outcome A * world.

#[global] Instance M_ret : MRet M := λ A a w, (Ok a, w).
#[global] Instance M_bind : MBind M := λ A B k m w,
  match m w with
  | (Ok a, w') => k a w'
  | (Raise e, w') => (Raise e, w')
  end.

Definition raise {A} (e : exn) : M A := λ w, (Raise e, w).

(** A step given directly by its effect on the world. *)
Definition act {A} (step : world → outcome A * world) : M A := step.

(** Every input/output operation burns one unit of the fuse. *)
Definition tick : M unit := λ w,
  match fuse w with
  | None => (Ok (), w)
  | Some O => (Raise Killed, w)
  | Some (S k) => (Ok (), with_fuse (Some k) w)
  end.

(** [os.path.exists(p)]. *)
Definition os_path_exists (p : string) : M bool :=
  tick;; act (λ w, (Ok (bool_decide (is_Some (fs w !! p))), w)).

(** [with open(p, 'rb') as f: f.read()]. *)
Definition read_binary (p : string) : M (list byte) :=
  tick;; act (λ w,
    match fs w !! p with
    | Some (File content) => (Ok content, w)
    | Some Dir => (Raise (IsADirectoryError p), w)
    | None => (Raise (FileNotFoundError p), w)
    end).

(** A file open for writing in text mode: its path, the bytes written but
    still in the runtime's buffer, and the number of writes so far. *)
Record handle := Handle {
  h_path : string;
  h_pending : list byte;
  h_writes : nat
}.

(** [open(p, 'w')]: the file is created, or emptied when it exists. *)
Definition open_w (p : string) : M handle :=
  tick;; act (λ w,
    match fs w !! p with
    | Some Dir => (Raise (IsADirectoryError p), w)
    | _ =>
        if bool_decide (p ∈ refused w) then (Raise (OSError p), w)
        else (Ok (Handle p [] 0), with_fs (<[p := File []]> (fs w)) w)
    end).

(** Bytes leaving the buffer are appended to the file on disk. *)
Definition to_disk (p : string) (bytes : list byte) (w : world) : world :=
  match fs w !! p with
  | Some (File content) => with_fs (<[p := File (content ++ bytes)]> (fs w)) w
  | _ => w
  end.

(** [print(s)]. *)
Definition print (s : string) : M unit :=
  tick;; act (λ w, (Ok (), with_stdout (stdout w +:+ s +:+ LF) w)).

(** [sys.exit(code)]. *)
Definition sys_exit {A} (code : Z) : M A := raise (SystemExit code).

(** [sys.argv[i]]. *)
Definition argv_at (argv : list string) (i : nat) : M string :=
  match argv !! i with
  | Some s => mret s
  | None => raise IndexError
  end.

(** How a run ends for the caller: the exit code, or nothing when the
    process was killed.  An uncaught exception other than [SystemExit]
    ends the interpreter with code 1. *)
Definition exit_code {A} (r : outcome A) : option Z :=
  match r with
  | Ok _ => Some 0%Z
  | Raise (SystemExit code) => Some code
  | Raise Killed => None
  | Raise _ => Some 1%Z
  end.

(** ** The script *)

Section Embedder.
(** The text layer of the platform the script runs on. *)
Variable layer : text_layer.
(** [str.upper]. *)
Variable upper : string → string.
(** The number of buffered bytes the runtime hands to the system after
    the write number [k] of a file. *)
Variable flushed : nat → nat.

(** [f.write(s)]: the text is encoded at once, which raises when a
    character cannot be encoded; its bytes join the buffer. *)
Definition f_write (f : handle) (s : string) : M handle :=
  tick;; act (λ w,
    match encode_with layer s with
    | None => (Raise UnicodeEncodeError, w)
    | Some bytes =>
        let pending := h_pending f ++ bytes in
        let n := flushed (h_writes f) in
        (Ok (Handle (h_path f) (drop n pending) (S (h_writes f))),
         to_disk (h_path f) (take n pending) w)
    end).

(** Leaving the [with] block closes the file: the buffer is emptied. *)
Definition f_close (f : handle) : M unit :=
  tick;; act (λ w, (Ok (), to_disk (h_path f) (h_pending f) w)).

(** The arguments of the [f.write] calls of [spv_to_header], in the
    order of the calls (source lines 22 to 42). *)
Definition header_chunks (spv_file var_name : string) (spv_data : list byte)
    : list string :=
  let guard_name := "SHADER_" +:+ upper var_name +:+ "_H" in
  [ "// Auto-generated from " +:+ basename spv_file +:+ LF;
    "// DO NOT EDIT!" +:+ LF +:+ LF;
    "#ifndef " +:+ guard_name +:+ LF;
    "#define " +:+ guard_name +:+ LF +:+ LF;
    "#include <cstdint>" +:+ LF;
    "#include <cstddef>" +:+ LF +:+ LF;
    "namespace Shaders {" +:+ LF +:+ LF;
    "constexpr size_t " +:+ var_name +:+ "_size = "
      +:+ str_of_nat (length spv_data) +:+ ";" +:+ LF +:+ LF;
    "constexpr uint8_t " +:+ var_name +:+ "_data[] = {" +:+ LF ]
  ++ data_rows spv_data
  ++ [ "};" +:+ LF +:+ LF;
       "} // namespace Shaders" +:+ LF +:+ LF;
       "#endif // " +:+ guard_name +:+ LF ].

(** The body of the [with] block: one [f.write] per chunk, in order.  It
    returns the file as the block leaves it, with the exception that ended
    the block early, if any; the death of the process ends everything. *)
Fixpoint write_all (f : handle) (chunks : list string)
    : M (handle * option exn) :=
  match chunks with
  | [] => mret (f, None)
  | chunk :: chunks' => λ w,
      match f_write f chunk w with
      | (Ok f', w') => write_all f' chunks' w'
      | (Raise Killed, w') => (Raise Killed, w')
      | (Raise e, w') => (Ok (f, Some e), w')
      end
  end.

(** [spv_to_header(spv_file, header_file, var_name)]: read the input,
    open the destination, write the header, close, report.  The [with]
    statement closes the file also when its block raised, and lets the
    exception through. *)
Definition spv_to_header (spv_file header_file var_name : string) : M unit :=
  spv_data ← read_binary spv_file;
  f ← open_w header_file;
  block ← write_all f (header_chunks spv_file var_name spv_data);
  f_close block.1;;
  match block.2 with
  | Some e => raise e
  | None =>
      print ("Generated " +:+ header_file +:+ " ("
               +:+ str_of_nat (length spv_data) +:+ " bytes)")
  end.

(** The block under [if __name__ == '__main__']. *)
Definition main (argv : list string) : M unit :=
  if bool_decide (length argv ≠ 4) then
    print "Usage: spv_to_header.py <input.spv> <output.h> <variable_name>";;
    sys_exit 1
  else
    spv_file ← argv_at argv 1;
    header_file ← argv_at argv 2;
    var_name ← argv_at argv 3;
    found ← os_path_exists spv_file;
    if negb found then
      print ("Error: " +:+ spv_file +:+ " not found");;
      sys_exit 1
    else spv_to_header spv_file header_file var_name.

(** The text of the generated header. *)
Definition header_text (spv_file var_name : string) (spv_data : list byte)
    : string :=
  String.concat "" (header_chunks spv_file var_name spv_data).
End Embedder.

(** ** Reading the array body back

    The specification speaks of decoding the generated array: parsing the
    hex literals in row order back into bytes.  The script has no decoder;
    the one below follows the specification's description of the layout: a
    row is four spaces, then literals [0xhh] with lowercase digits, each
    followed by a comma, separated by one space, and closed by a line
    feed. *)

(** The lowercase hexadecimal digits, in the order of their values. *)
Definition hex_alphabet : list ascii :=
  ["0"; "1"; "2"; "3"; "4"; "5"; "6"; "7";
   "8"; "9"; "a"; "b"; "c"; "d"; "e"; "f"]%char.

Fixpoint position (c : ascii) (alphabet : list ascii) : option nat :=
  match alphabet with
  | [] => None
  | d :: alphabet' =>
      if Ascii.eqb c d then Some 0 else S <$> position c alphabet'
  end.

(** The value of a lowercase hexadecimal digit; [None] for anything else,
    uppercase digits included. *)
Definition hex_value (c : ascii) : option N :=
  N.of_nat <$> position c hex_alphabet.

Definition byte_of_hex (hi lo : ascii) : option byte :=
  h ← hex_value hi; l ← hex_value lo; Byte.of_N (16 * h + l).

Inductive cursor := RowStart | InRow.

(** [parse_body RowStart text] returns the rows of [text], each as the list
    of the bytes its literals denote, or [None] when [text] departs from
    the layout. *)
Fixpoint parse_body (at_ : cursor) (text : string) : option (list (list byte)) :=
  match at_, text with
  | RowStart, EmptyString => Some []
  | RowStart, String " " (String " " (String " " (String " " rest))) =>
      parse_body InRow rest
  | InRow, String "0" (String "x" (String hi (String lo
             (String "," (String c rest))))) =>
      b ← byte_of_hex hi lo;
      if Ascii.eqb c " " then
        rows ← parse_body InRow rest;
        match rows with
        | row :: rows' => Some ((b :: row) :: rows')
        | [] => None
        end
      else if Ascii.eqb c "010" then
        rows ← parse_body RowStart rest;
        Some ([b] :: rows)
      else None
  | _, _ => None
  end.

(** Decoding the array body: the bytes of all rows, in row order. *)
Definition decode_body (text : string) : option (list byte) :=
  rows ← parse_body RowStart text; Some (concat rows).


(** ** What a run leaves behind *)

(** What a run that was asked to put [text] at [path] may leave behind:
    a run left alone returns; a run that returns has put the whole text at
    the destination and reported [message] on standard output; a run that
    is killed has left the files untouched or the destination holding a
    prefix of the text.  Nothing else changes. *)
Definition leaves (w : world) (path : string) (text message : string)
    (r : outcome ()) (w' : world) : Prop :=
  refused w' = refused w ∧ stderr w' = stderr w
  ∧ (fuse w = None → r = Ok ())
  ∧ match r with
    | Ok _ =>
        fs w' = <[path := File (encode text)]> (fs w)
        ∧ stdout w' = stdout w +:+ message +:+ LF
        ∧ (fuse w = None → fuse w' = None)
    | Raise e =>
        e = Killed
        ∧ (fs w' = fs w
           ∨ ∃ disk, fs w' = <[path := File disk]> (fs w)
               ∧ disk `prefix_of` encode text)
    end.

(** ** Notions the specification uses

    They have no counterpart in the script; each follows the wording of the
    specification. *)

(** Reading a decimal literal back. *)
Definition nat_of_str (s : string) : option nat :=
  Nat.of_uint <$> NilEmpty.uint_of_string s.

(** What follows [lead] in [text]; [None] when [text] does not begin with
    [lead]. *)
Fixpoint after_prefix (lead text : string) : option string :=
  match lead, text with
  | EmptyString, _ => Some text
  | String c lead', String d text' =>
      if Ascii.eqb c d then after_prefix lead' text' else None
  | _, _ => None
  end.

(** The part of [text] that comes before the first [mark]. *)
Fixpoint before_mark (mark : ascii) (text : string) : string :=
  match text with
  | EmptyString => EmptyString
  | String c text' =>
      if Ascii.eqb c mark then EmptyString
      else String c (before_mark mark text')
  end.

(** Reading the size constant of a header: the decimal literal that stands
    between the text leading to it and the semicolon. *)
Definition read_size_constant (lead text : string) : option nat :=
  rest ← after_prefix lead text; nat_of_str (before_mark ";" rest).


(** The other case of an ASCII letter; any other character is left. *)
Definition swap_case (c : ascii) : ascii :=
  let n := nat_of_ascii c in
  if ((97 <=? n) && (n <=? 122))%nat then ascii_of_nat (n - 32)
  else if ((65 <=? n) && (n <=? 90))%nat then ascii_of_nat (n + 32)
  else c.

(** Two names that differ at most in the casing of their letters. *)
Fixpoint same_but_case (s t : string) : Prop :=
  match s, t with
  | EmptyString, EmptyString => True
  | String c s', String d t' =>
      (d = c ∨ d = swap_case c) ∧ same_but_case s' t'
  | _, _ => False
  end.

(** A run wrote a message to a stream: the stream grew by a non-empty
    text. *)
Definition wrote_to (stream : world → string) (w w' : world) : Prop :=
  ∃ message, message ≠ "" ∧ stream w' = stream w +:+ message.

(** Atomic replacement of [path]: in the world a cut run leaves, a reader
    of [path] finds what was there before the run, or what the complete
    run puts there, never anything else. *)
Definition atomic_at (path : string) (before cut complete : world) : Prop :=
  fs cut !! path = fs before !! path ∨ fs cut !! path = fs complete !! path.

(** ** Concrete runs *)

(** Two flush policies: keep everything until the file is closed, or hand
    over up to five bytes after each write. *)
Definition flush_at_close : nat → nat := λ _, 0.
Definition flush_five : nat → nat := λ _, 5.

Definition script : string := "spv_to_header.py".

(** A build directory with a four-byte shader, the same bytes under a
    second name, and a header left by an earlier build. *)
Definition build_dir : world :=
  World {[ "out/tri.spv" := File [x03; x02; x23; x07];
           "out/quad.spv" := File [x03; x02; x23; x07];
           "gen/tri.h" := File (encode "stale") ]}
    ∅ "" "" None.

(** The header expected for the four-byte shader of [build_dir]. *)
Definition tri_header : string :=
  "// Auto-generated from tri.spv" +:+ LF
  +:+ "// DO NOT EDIT!" +:+ LF +:+ LF
  +:+ "#ifndef SHADER_TRI_H" +:+ LF
  +:+ "#define SHADER_TRI_H" +:+ LF +:+ LF
  +:+ "#include <cstdint>" +:+ LF
  +:+ "#include <cstddef>" +:+ LF +:+ LF
  +:+ "namespace Shaders {" +:+ LF +:+ LF
  +:+ "constexpr size_t tri_size = 4;" +:+ LF +:+ LF
  +:+ "constexpr uint8_t tri_data[] = {" +:+ LF
  +:+ "    0x03, 0x02, 0x23, 0x07," +:+ LF
  +:+ "};" +:+ LF +:+ LF
  +:+ "} // namespace Shaders" +:+ LF +:+ LF
  +:+ "#endif // SHADER_TRI_H" +:+ LF.

(** A directory with an empty shader. *)
Definition empty_dir : world :=
  World {[ "void.spv" := File [] ]} ∅ "" "" None.

(** A second directory holding the same shader under the same file name. *)
Definition other_dir : world :=
  World {[ "cache/tri.spv" := File [x03; x02; x23; x07] ]}
    {[ "locked.h" ]} "earlier output" "" None.

(** A name holding the control character U+0085, for which the code page
    1252 has no byte.  Uppercasing leaves it as it is. *)
Definition odd_name : string := String "133"%char EmptyString.

(** A source tree in which [shaders] is a directory, and where the system
    refuses to create [missing/tri.h]. *)
Definition shader_tree : world :=
  World {[ "shaders" := Dir;
           "shaders/tri.spv" := File [x03; x02; x23; x07] ]}
    {[ "missing/tri.h" ]} "" "" None.

(** ** Notions used to state what runs preserve *)

(** The computation [m] keeps the relation [keeps] between the world it
    starts in and the world it ends in, and a value it returns satisfies
    [good]. *)
Definition preserves (keeps : world → world → Prop) {A} (good : A → Prop)
    (m : M A) : Prop :=
  ∀ w, keeps w (m w).2 ∧ ∀ a, (m w).1 = Ok a → good a.

(** What the block of the [with] statement gets to write under a layer:
    the bytes of the chunks that come before the first chunk holding a
    character the codec refuses. *)
Fixpoint block_bytes (layer : text_layer) (chunks : list string) : list byte :=
  match chunks with
  | [] => []
  | chunk :: chunks' =>
      match encode_with layer chunk with
      | Some bytes => bytes ++ block_bytes layer chunks'
      | None => []
      end
  end.

(** The exception that ends the block early, if any. *)
Fixpoint block_failure (layer : text_layer) (chunks : list string) : option exn :=
  match chunks with
  | [] => None
  | chunk :: chunks' =>
      match encode_with layer chunk with
      | Some _ => block_failure layer chunks'
      | None => Some UnicodeEncodeError
      end
  end.

(** Nothing was printed between the two worlds. *)
Definition quiet (w w' : world) : Prop := stdout w' = stdout w.

(** The computation [m] prints nothing when it does not return. *)
Definition silent_failure {A} (m : M A) : Prop :=
  ∀ w e, (m w).1 = Raise e → stdout (m w).2 = stdout w.

(** The character [c] does not occur in [s]. *)
Fixpoint free_of (c : ascii) (s : string) : Prop :=
  match s with
  | EmptyString => True
  | String d s' => d ≠ c ∧ free_of c s'
  end.

(** * Facts *)

(** ** Facts about the builtins *)

(** Division and remainder by a constant, for [lia]. *)
Ltac Zify.zify_post_hook ::= Z.to_euclidean_division_equations.

Lemma append_nil_l (s : string) : "" +:+ s = s.
Proof. reflexivity. Qed.

Lemma append_cons (c : ascii) (s t : string) :
  String c s +:+ t = String c (s +:+ t).
Proof. reflexivity. Qed.

Lemma append_nil_r (s : string) : s +:+ "" = s.
Proof. induction s as [|c s IH]; [done |]. by rewrite append_cons, IH. Qed.

Lemma append_assoc (s t u : string) : (s +:+ t) +:+ u = s +:+ (t +:+ u).
Proof. induction s as [|c s IH]; [done |]. by rewrite !append_cons, IH. Qed.

Lemma concat_empty_cons (x : string) (xs : list string) :
  String.concat "" (x :: xs) = x +:+ String.concat "" xs.
Proof. destruct xs as [|y ys]; simpl; [by rewrite append_nil_r | done]. Qed.

Lemma concat_empty_app (xs ys : list string) :
  String.concat "" (xs ++ ys) = String.concat "" xs +:+ String.concat "" ys.
Proof.
  induction xs as [|x xs IH]; [done |].
  rewrite <- app_comm_cons, !concat_empty_cons, IH. by rewrite append_assoc.
Qed.

Lemma byte_of_hex_format (b : byte) :
  byte_of_hex (hex_digit (Byte.to_N b / 16)) (hex_digit (Byte.to_N b mod 16))
  = Some b.
Proof. destruct b; vm_compute; reflexivity. Qed.

(** ** Facts about [range] and the slices of the loop *)

Section Range.
Variable stop : nat.

Lemma range_from_bound fuel start i :
  i ∈ range_from fuel start stop 12 → i < stop.
Proof.
  revert start. induction fuel as [|fuel IH]; intros start; simpl.
  - by intros ?%elem_of_nil.
  - destruct (Nat.ltb_spec start stop) as [Hlt|Hge].
    + intros [->|Hin]%elem_of_cons; [done | by eapply IH].
    + by intros ?%elem_of_nil.
Qed.

Lemma range_from_lookup fuel start k i :
  range_from fuel start stop 12 !! k = Some i → i = start + 12 * k ∧ i < stop.
Proof.
  revert start k. induction fuel as [|fuel IH]; intros start k; simpl; [done |].
  destruct (Nat.ltb_spec start stop) as [Hlt|Hge]; [| done].
  destruct k as [|k]; simpl.
  - intros [= <-]. lia.
  - intros [-> ?]%IH. lia.
Qed.

Lemma range_from_length fuel start :
  stop - start ≤ fuel →
  length (range_from fuel start stop 12) = (stop - start + 11) / 12.
Proof.
  revert start. induction fuel as [|fuel IH]; intros start Hfuel;
    cbn [range_from length].
  - lia.
  - destruct (Nat.ltb_spec start stop) as [Hlt|Hge]; cbn [length].
    + rewrite IH by lia. lia.
    + lia.
Qed.
End Range.

Lemma concat_slices (data : list byte) fuel start :
  length data - start ≤ fuel →
  concat (map (λ i, slice data i (i + 12)) (range_from fuel start (length data) 12))
  = drop start data.
Proof.
  revert start. induction fuel as [|fuel IH]; intros start Hfuel;
    cbn [range_from map concat].
  - rewrite drop_ge; [done | lia].
  - destruct (Nat.ltb_spec start (length data)) as [Hlt|Hge];
      cbn [map concat].
    + rewrite IH by lia. unfold slice.
      replace (start + 12 - start) with 12 by lia.
      replace (drop (start + 12) data) with (drop 12 (drop start data))
        by (rewrite drop_drop; f_equal; lia).
      apply take_drop.
    + rewrite drop_ge; [done | lia].
Qed.

(** ** Parsing what the loop writes *)

(** One literal, its comma and the character after it. *)
Lemma parse_literal (b : byte) (c : ascii) (rest : string) :
  parse_body InRow (("0x" +:+ format_02x b) +:+ String "," (String c rest))
  = if Ascii.eqb c " " then
      rows ← parse_body InRow rest;
      match rows with
      | row :: rows' => Some ((b :: row) :: rows')
      | [] => None
      end
    else if Ascii.eqb c "010" then
      rows ← parse_body RowStart rest; Some ([b] :: rows)
    else None.
Proof.
  transitivity
    (b' ← byte_of_hex (hex_digit (Byte.to_N b / 16)) (hex_digit (Byte.to_N b mod 16));
     if Ascii.eqb c " " then
       rows ← parse_body InRow rest;
       match rows with
       | row :: rows' => Some ((b' :: row) :: rows')
       | [] => None
       end
     else if Ascii.eqb c "010" then
       rows ← parse_body RowStart rest; Some ([b'] :: rows)
     else None); [reflexivity |].
  by rewrite byte_of_hex_format.
Qed.

(** The literals of a non-empty chunk, joined and closed as the loop does. *)
Lemma parse_items (b : byte) (chunk : list byte) (rest : string) :
  parse_body InRow
    (join ", " (map (λ b, "0x" +:+ format_02x b) (b :: chunk))
       +:+ "," +:+ LF +:+ rest)
  = rows ← parse_body RowStart rest; Some ((b :: chunk) :: rows).
Proof.
  revert b. induction chunk as [|b' chunk IH]; intros b.
  - transitivity
      (parse_body InRow (("0x" +:+ format_02x b) +:+ String "," (String "010" rest)));
      [reflexivity |].
    by rewrite parse_literal.
  - transitivity
      (parse_body InRow
         (("0x" +:+ format_02x b) +:+ String "," (String " "
            (join ", " (map (λ b, "0x" +:+ format_02x b) (b' :: chunk))
               +:+ "," +:+ LF +:+ rest))));
      [reflexivity |].
    rewrite parse_literal, IH. by destruct (parse_body RowStart rest).
Qed.

Lemma parse_row (data : list byte) (i : nat) (rest : string) :
  i < length data →
  parse_body RowStart (row_text data i +:+ rest)
  = rows ← parse_body RowStart rest; Some (slice data i (i + 12) :: rows).
Proof.
  intros Hi. unfold row_text.
  destruct (slice data i (i + 12)) as [|b chunk] eqn:Hchunk.
  { apply (f_equal length) in Hchunk. unfold slice in Hchunk.
    rewrite length_take, length_drop in Hchunk. simpl in Hchunk. lia. }
  rewrite !append_assoc.
  apply parse_items.
Qed.

Lemma parse_rows (data : list byte) (indices : list nat) :
  Forall (λ i, i < length data) indices →
  parse_body RowStart (String.concat "" (map (row_text data) indices))
  = Some (map (λ i, slice data i (i + 12)) indices).
Proof.
  induction 1 as [|i indices Hi _ IH]; [done |].
  cbn [map]. rewrite concat_empty_cons, parse_row, IH; done.
Qed.

Lemma parse_body_text (data : list byte) :
  parse_body RowStart (body_text data) = Some (data_chunks data).
Proof.
  apply parse_rows, Forall_forall. intros i. apply range_from_bound.
Qed.

Lemma concat_data_chunks (data : list byte) : concat (data_chunks data) = data.
Proof.
  unfold data_chunks, range. rewrite concat_slices by lia. apply drop_0.
Qed.

Lemma length_data_chunks (data : list byte) :
  length (data_chunks data) = (length data + 11) / 12.
Proof.
  unfold data_chunks, range. rewrite length_map, range_from_length by lia.
  f_equal. lia.
Qed.

(** The size of the row number [k]. *)
Lemma data_chunk_length (data : list byte) (k : nat) (row : list byte) :
  data_chunks data !! k = Some row →
  length row =
    if S k <? length (data_chunks data) then 12
    else if length data mod 12 =? 0 then 12
    else length data mod 12.
Proof.
  intros Hrow. rewrite length_data_chunks. unfold data_chunks, range in Hrow.
  rewrite list_lookup_fmap in Hrow.
  destruct (range_from _ _ _ _ !! k) as [i|] eqn:Hi; [| done].
  apply range_from_lookup in Hi as [-> Hi]. injection Hrow as <-.
  unfold slice. rewrite length_take, length_drop.
  destruct (Nat.ltb_spec (S k) ((length data + 11) / 12));
    destruct (Nat.eqb_spec (length data mod 12) 0); lia.
Qed.

(** ** Claims on the array body *)

(** C1. Round trip: decoding the array body the script writes for an input
    (parsing its rows of hex literals, in row order, back into bytes) gives
    the input back, whatever its length. *)
Theorem decode_body_text (spv_data : list byte) :
  decode_body (body_text spv_data) = Some spv_data.
Proof.
  unfold decode_body. rewrite parse_body_text. cbn.
  by rewrite concat_data_chunks.
Qed.

(** C2. Row layout: the array body parses as rows of comma-terminated
    two-digit lowercase [0x] literals, and these rows are the successive
    pieces of the input; the rows have 12 literals each, up to a last row of
    [len mod 12] literals that is present when the length is not a multiple
    of 12. *)
Theorem row_layout (spv_data : list byte) :
  parse_body RowStart (body_text spv_data) = Some (data_chunks spv_data)
  ∧ length <$> data_chunks spv_data
    = replicate (length spv_data / 12) 12
      ++ (if length spv_data mod 12 =? 0 then []
          else [length spv_data mod 12]).
Proof.
  split; [apply parse_body_text |].
  apply (list_eq_same_length _ _ ((length spv_data + 11) / 12)).
  - rewrite length_app, length_replicate.
    destruct (Nat.eqb_spec (length spv_data mod 12) 0); cbn [length]; lia.
  - by rewrite length_fmap, length_data_chunks.
  - intros k x y Hk Hx Hy. rewrite list_lookup_fmap in Hx.
    destruct (data_chunks spv_data !! k) as [row|] eqn:Hrow; [| done].
    injection Hx as <-. rewrite (data_chunk_length _ _ _ Hrow).
    destruct (decide (k < length spv_data / 12)) as [Hlt|Hge].
    + rewrite lookup_app_l in Hy by (rewrite length_replicate; lia).
      apply lookup_replicate in Hy as [-> _].
      rewrite length_data_chunks.
      destruct (Nat.ltb_spec (S k) ((length spv_data + 11) / 12)); [done |].
      destruct (Nat.eqb_spec (length spv_data mod 12) 0); lia.
    + rewrite lookup_app_r in Hy by (rewrite length_replicate; lia).
      rewrite length_replicate, length_data_chunks in *.
      destruct (Nat.eqb_spec (length spv_data mod 12) 0) as [Hz|Hnz]; [done |].
      replace (k - length spv_data / 12) with 0 in Hy by lia.
      injection Hy as <-.
      destruct (Nat.ltb_spec (S k) ((length spv_data + 11) / 12)); [lia | done].
Qed.

Example rows_of_13_bytes :
  data_rows [x00; x01; x02; x03; x04; x05; x06; x07;
             x08; x09; x0a; x0b; x0c]
  = [ "    0x00, 0x01, 0x02, 0x03, 0x04, 0x05, 0x06, 0x07, 0x08, 0x09, 0x0a, 0x0b," +:+ LF;
      "    0x0c," +:+ LF ].
Proof. reflexivity. Qed.

Example decode_13_bytes :
  decode_body (body_text [x00; x01; x02; x03; x04; x05; x06; x07;
             x08; x09; x0a; x0b; xff])
  = Some [x00; x01; x02; x03; x04; x05; x06; x07;
             x08; x09; x0a; x0b; xff].
Proof. reflexivity. Qed.

(** The decoder holds to the layout: uppercase digits, a missing comma or a
    missing indent are refused. *)
Example decode_refuses :
  decode_body ("    0xAB," +:+ LF) = None
  ∧ decode_body ("    0xab" +:+ LF) = None
  ∧ decode_body ("0xab," +:+ LF) = None
  ∧ decode_body ("    0xab, 0x01," +:+ LF) = Some [xab; x01].
Proof. repeat split. Qed.

Example basename_examples :
  basename "shaders/out/mesh.vert.spv" = "mesh.vert.spv"
  ∧ basename "mesh.spv" = "mesh.spv" ∧ basename "dir/" = "".
Proof. repeat split. Qed.

Example upper_example : ascii_upper "test_Vert9" = "TEST_VERT9".
Proof. reflexivity. Qed.

(** ** Facts about the run *)

Lemma encode_app (s t : string) : encode (s +:+ t) = encode s ++ encode t.
Proof.
  unfold encode, list_byte_of_string.
  induction s as [|c s IH]; [done |].
  rewrite append_cons. cbn [list_ascii_of_string map]. by rewrite IH.
Qed.

(** ** Facts about the readers and about casing *)

Lemma after_prefix_app (lead rest : string) :
  after_prefix lead (lead +:+ rest) = Some rest.
Proof.
  induction lead as [|c lead IH]; [by destruct rest |].
  rewrite append_cons. cbn [after_prefix]. by rewrite Ascii.eqb_refl.
Qed.

Lemma before_mark_free (mark : ascii) (s rest : string) :
  free_of mark s → before_mark mark (s +:+ String mark rest) = s.
Proof.
  induction s as [|c s IH]; intros Hfree.
  - rewrite append_nil_l. cbn [before_mark]. by rewrite Ascii.eqb_refl.
  - destruct Hfree as [Hc Hfree]. rewrite append_cons. cbn [before_mark].
    destruct (Ascii.eqb_spec c mark) as [-> | _]; [done |]. by rewrite IH.
Qed.

Lemma str_of_nat_free (n : nat) : free_of ";" (str_of_nat n).
Proof.
  unfold str_of_nat. induction (Nat.to_uint n) as [|d IH|d IH|d IH|d IH|d IH
    |d IH|d IH|d IH|d IH|d IH]; cbn; by repeat split.
Qed.



(** Under the one-byte layer the bytes of a text are its characters. *)
Lemma encode_with_latin1 (s : string) : encode_with latin1_lf s = Some (encode s).
Proof.
  induction s as [|c s IH]; [done |].
  cbn [encode_with]. by rewrite IH.
Qed.

Section Run.
Variable upper : string → string.
Variable flushed : nat → nat.

(** One write to a file that holds [disk] on disk. *)
Lemma f_write_step (fs0 : gmap string node) (f : handle) (chunk : string)
    (w : world) (disk : list byte) :
  fs w = <[h_path f := File disk]> fs0 →
  let pending := h_pending f ++ encode chunk in
  let n := flushed (h_writes f) in
  f_write latin1_lf flushed f chunk w =
    match fuse w with
    | Some O => (Raise Killed, w)
    | remaining =>
        (Ok (Handle (h_path f) (drop n pending) (S (h_writes f))),
         World (<[h_path f := File (disk ++ take n pending)]> fs0)
           (refused w) (stdout w) (stderr w) (pred <$> remaining))
    end.
Proof.
  intros Hfs. destruct w as [m ref out err [[|k]|]]; cbn in Hfs; subst m;
    unfold f_write, mbind, M_bind, tick, act, to_disk;
    rewrite encode_with_latin1; cbn; [done | |];
    by rewrite lookup_insert_eq, insert_insert_eq.
Qed.

(** Writing the chunks to a file that holds [disk] on disk: the other
    paths and the streams are left alone; disk and buffer together hold
    what was written so far; a process killed on the way leaves a prefix
    of the text on disk. *)
Lemma write_all_spec (fs0 : gmap string node) (chunks : list string) :
  ∀ (f : handle) (w : world) (disk : list byte) (written : string),
    fs w = <[h_path f := File disk]> fs0 →
    disk ++ h_pending f = encode written →
    ∃ r w' disk',
      write_all latin1_lf flushed f chunks w = (r, w')
      ∧ fs w' = <[h_path f := File disk']> fs0
      ∧ refused w' = refused w ∧ stdout w' = stdout w ∧ stderr w' = stderr w
      ∧ match r with
        | Ok block =>
            block.2 = None ∧ h_path block.1 = h_path f
            ∧ disk' ++ h_pending block.1
              = encode (written +:+ String.concat "" chunks)
            ∧ (fuse w = None → fuse w' = None)
        | Raise e =>
            e = Killed ∧ fuse w ≠ None
            ∧ disk' `prefix_of` encode (written +:+ String.concat "" chunks)
        end.
Proof.
  induction chunks as [|chunk chunks IH]; intros f w disk written Hfs Hbuf.
  { exists (Ok (f, None)), w, disk. cbn. rewrite append_nil_r. naive_solver. }
  rewrite concat_empty_cons. cbn [write_all].
  rewrite (f_write_step fs0 f chunk w disk Hfs).
  set (pending := h_pending f ++ encode chunk).
  set (n := flushed (h_writes f)).
  assert (Hkilled : disk `prefix_of` encode (written +:+ chunk +:+ String.concat "" chunks)).
  { rewrite !encode_app, <- Hbuf, <- !app_assoc. by eexists. }
  assert (Hnext : (disk ++ take n pending) ++ drop n pending
                  = encode (written +:+ chunk)).
  { rewrite <- app_assoc, take_drop. unfold pending.
    by rewrite app_assoc, Hbuf, encode_app. }
  destruct (fuse w) as [[|k]|] eqn:Hfuse.
  - exists (Raise Killed), w, disk. naive_solver.
  - edestruct (IH (Handle (h_path f) (drop n pending) (S (h_writes f)))
                  (World (<[h_path f := File (disk ++ take n pending)]> fs0)
                     (refused w) (stdout w) (stderr w) (pred <$> Some (S k)))
                  (disk ++ take n pending) (written +:+ chunk))
      as (r & w' & disk' & Hrun & Hfs' & Href & Hout & Herr & Hr);
      [done | done |].
    exists r, w', disk'. rewrite <- append_assoc.
    do 5 (split; [done |]).
    destruct r as [block|e]; [destruct Hr as (Hr0 & Hr1 & Hr2 & Hr3)
                             | destruct Hr as (Hr1 & Hr2 & Hr3)]; done.
  - edestruct (IH (Handle (h_path f) (drop n pending) (S (h_writes f)))
                  (World (<[h_path f := File (disk ++ take n pending)]> fs0)
                     (refused w) (stdout w) (stderr w) (pred <$> None))
                  (disk ++ take n pending) (written +:+ chunk))
      as (r & w' & disk' & Hrun & Hfs' & Href & Hout & Herr & Hr);
      [done | done |].
    exists r, w', disk'. rewrite <- append_assoc.
    do 5 (split; [done |]).
    destruct r as [block|e]; [destruct Hr as (Hr0 & Hr1 & Hr2 & Hr3)
                             | destruct Hr as (Hr1 & Hr2 & Hr3)]; done.
Qed.

(** The body of the [with] block, its exit and the final [print], from
    the world in which the destination has just been opened. *)
Lemma write_close_print_spec (fs0 : gmap string node) (path message : string)
    (chunks : list string) (w : world) :
  fs w = <[path := File []]> fs0 →
  ∃ r w',
    (block ← write_all latin1_lf flushed (Handle path [] 0) chunks;
     f_close block.1;;
     match block.2 with
     | Some e => raise e
     | None => print message
     end) w = (r, w')
    ∧ refused w' = refused w ∧ stderr w' = stderr w
    ∧ (fuse w = None → r = Ok ())
    ∧ match r with
      | Ok _ =>
          fs w' = <[path := File (encode (String.concat "" chunks))]> fs0
          ∧ stdout w' = stdout w +:+ message +:+ LF
          ∧ (fuse w = None → fuse w' = None)
      | Raise e =>
          e = Killed
          ∧ ∃ disk, fs w' = <[path := File disk]> fs0
              ∧ disk `prefix_of` encode (String.concat "" chunks)
      end.
Proof.
  intros Hfs.
  destruct (write_all_spec fs0 chunks (Handle path [] 0) w [] "" Hfs eq_refl)
    as (r1 & w1 & disk & Hrun & Hfs1 & Href & Hout & Herr & Hr1).
  unfold mbind, M_bind. rewrite Hrun. cbn [h_path] in *.
  rewrite append_nil_l in Hr1.
  destruct r1 as [[f failure]|e].
  - destruct Hr1 as (Hnone & Hpath & Hdisk & Hfuse).
    cbn [fst snd] in *. subst failure.
    destruct w1 as [m1 ref1 out1 err1 fz1]; cbn [fs refused stdout stderr fuse] in *.
    subst m1 ref1 out1 err1.
    unfold f_close, print, mbind, M_bind, tick, act, to_disk.
    cbn [fs refused stdout stderr fuse with_fs with_fuse with_stdout].
    rewrite Hpath.
    destruct fz1 as [[|[|k]]|]; cbn [fs refused stdout stderr fuse with_fs with_fuse with_stdout];
      rewrite ?lookup_insert_eq, ?insert_insert_eq, ?Hdisk.
    + eexists _, _. split; [done |]. cbn. repeat split; try done.
      * intros Hnone. by specialize (Hfuse Hnone).
      * exists disk. split; [done |]. rewrite <- Hdisk. by eexists.
    + eexists _, _. split; [done |]. cbn. repeat split; try done.
      * intros Hnone. by specialize (Hfuse Hnone).
      * by exists (encode (String.concat "" chunks)).
    + eexists _, _. split; [done |]. cbn. repeat split; try done.
      intros Hnone. by specialize (Hfuse Hnone).
    + eexists _, _. split; [done |]. cbn. repeat split; try done.
  - destruct Hr1 as (-> & Hfuse & Hdisk).
    eexists _, _. split; [done |]. repeat split; try done.
    by exists disk.
Qed.

Lemma spv_to_header_spec (spv_file header_file var_name : string)
    (w : world) (spv_data : list byte) :
  fs w !! spv_file = Some (File spv_data) →
  fs w !! header_file ≠ Some Dir →
  header_file ∉ refused w →
  ∃ r w',
    spv_to_header latin1_lf upper flushed spv_file header_file var_name w = (r, w')
    ∧ leaves w header_file (header_text upper spv_file var_name spv_data)
        ("Generated " +:+ header_file +:+ " ("
           +:+ str_of_nat (length spv_data) +:+ " bytes)") r w'.
Proof.
  intros Hspv Hhdr Href.
  assert (Hopen : ∀ k, open_w header_file (World (fs w) (refused w) (stdout w) (stderr w) k)
            = match k with
              | Some O => (Raise Killed, World (fs w) (refused w) (stdout w) (stderr w) k)
              | _ => (Ok (Handle header_file [] 0),
                      World (<[header_file := File []]> (fs w)) (refused w)
                        (stdout w) (stderr w) (pred <$> k))
              end).
  { intros k. unfold open_w, mbind, M_bind, tick, act.
    destruct k as [[|k]|]; cbn; [done | |];
      rewrite bool_decide_eq_false_2 by done;
      by destruct (fs w !! header_file) as [[|]|]. }
  assert (Hread : ∀ k, read_binary spv_file (World (fs w) (refused w) (stdout w) (stderr w) k)
            = match k with
              | Some O => (Raise Killed, World (fs w) (refused w) (stdout w) (stderr w) k)
              | _ => (Ok spv_data, World (fs w) (refused w) (stdout w) (stderr w) (pred <$> k))
              end).
  { intros k. unfold read_binary, mbind, M_bind, tick, act.
    destruct k as [[|k]|]; cbn; [done | |]; by rewrite Hspv. }
  destruct w as [m ref out err fz]; cbn [fs refused stdout stderr fuse] in *.
  unfold spv_to_header. unfold mbind at 1 2, M_bind at 1 2.
  rewrite Hread.
  destruct fz as [[|[|k]]|]; cbn [fmap option_fmap option_map pred];
    rewrite ?Hopen; cbn [fmap option_fmap option_map pred].
  - eexists _, _. split; [done |]. unfold leaves; cbn. naive_solver.
  - eexists _, _. split; [done |]. unfold leaves; cbn. naive_solver.
  - edestruct (write_close_print_spec m header_file
                 ("Generated " +:+ header_file +:+ " ("
                    +:+ str_of_nat (length spv_data) +:+ " bytes)")
                 (header_chunks upper spv_file var_name spv_data)
                 (World (<[header_file := File []]> m) ref out err (Some k)))
      as (r & w' & Hrun & Hpost); [done |].
    exists r, w'. split; [exact Hrun |].
    unfold leaves; cbn [fs refused stdout stderr fuse] in *.
    destruct Hpost as (? & ? & _ & Hr). do 3 (split; [done |]).
    destruct r as [[]|e].
    + destruct Hr as (? & ? & _). done.
    + destruct Hr as (-> & disk & ? & ?). split; [done |]. right. by exists disk.
  - edestruct (write_close_print_spec m header_file
                 ("Generated " +:+ header_file +:+ " ("
                    +:+ str_of_nat (length spv_data) +:+ " bytes)")
                 (header_chunks upper spv_file var_name spv_data)
                 (World (<[header_file := File []]> m) ref out err None))
      as (r & w' & Hrun & Hpost); [done |].
    exists r, w'. split; [exact Hrun |].
    unfold leaves; cbn [fs refused stdout stderr fuse] in *.
    destruct Hpost as (? & ? & Hok & Hr). do 3 (split; [done |]).
    destruct r as [[]|e]; [done |].
    destruct Hr as (-> & disk & ? & ?). split; [done |]. right. by exists disk.
Qed.

(** The same for the whole program, called with three arguments. *)
Lemma main_spec (prog spv_file header_file var_name : string)
    (w : world) (spv_data : list byte) :
  fs w !! spv_file = Some (File spv_data) →
  fs w !! header_file ≠ Some Dir →
  header_file ∉ refused w →
  ∃ r w',
    main latin1_lf upper flushed [prog; spv_file; header_file; var_name] w = (r, w')
    ∧ leaves w header_file (header_text upper spv_file var_name spv_data)
        ("Generated " +:+ header_file +:+ " ("
           +:+ str_of_nat (length spv_data) +:+ " bytes)") r w'.
Proof.
  intros Hspv Hhdr Href.
  unfold main. cbn [length]. rewrite bool_decide_eq_false_2 by (intros ?; done).
  cbn [argv_at lookup list_lookup]. unfold mbind at 1 2 3 4, M_bind at 1 2 3 4, mret, M_ret.
  unfold os_path_exists, mbind at 1, M_bind at 1, tick, act.
  destruct (fuse w) as [[|k]|] eqn:Hfuse.
  - eexists _, _. split; [done |]. unfold leaves. rewrite Hfuse. naive_solver.
  - cbn [fs with_fuse]. rewrite Hspv, bool_decide_eq_true_2 by done. cbn [negb].
    destruct (spv_to_header_spec spv_file header_file var_name
                (with_fuse (Some k) w) spv_data)
      as (r & w' & Hrun & Hpost); [done..|].
    exists r, w'. split; [exact Hrun |].
    unfold leaves in *. cbn [fs refused stdout stderr fuse with_fuse] in *.
    rewrite Hfuse. destruct Hpost as (? & ? & _ & Hr). do 3 (split; [done |]).
    destruct r as [[]|e]; [| done]. destruct Hr as (? & ? & _). done.
  - cbn [fs with_fuse]. rewrite Hspv, bool_decide_eq_true_2 by done. cbn [negb].
    destruct (spv_to_header_spec spv_file header_file var_name w spv_data)
      as (r & w' & Hrun & Hpost); [done..|].
    by exists r, w'.
Qed.
(** The program called with a wrong number of arguments. *)
Lemma main_usage (argv : list string) (w : world) :
  fuse w = None →
  length argv ≠ 4 →
  main latin1_lf upper flushed argv w
  = (Raise (SystemExit 1),
     with_stdout
       (stdout w
          +:+ "Usage: spv_to_header.py <input.spv> <output.h> <variable_name>"
          +:+ LF) w).
Proof.
  intros Hfuse Hlen. unfold main. rewrite bool_decide_eq_true_2 by done.
  unfold print, sys_exit, raise, mbind, M_bind, tick, act. by rewrite Hfuse.
Qed.

(** The program called with an input path that names nothing. *)
Lemma main_missing (prog spv_file header_file var_name : string) (w : world) :
  fuse w = None →
  fs w !! spv_file = None →
  main latin1_lf upper flushed [prog; spv_file; header_file; var_name] w
  = (Raise (SystemExit 1),
     with_stdout (stdout w +:+ ("Error: " +:+ spv_file +:+ " not found") +:+ LF) w).
Proof.
  intros Hfuse Hspv. unfold main. cbn [length].
  rewrite bool_decide_eq_false_2 by (intros ?; done).
  cbn [argv_at lookup list_lookup].
  unfold os_path_exists, print, sys_exit, raise, mbind, M_bind, mret, M_ret,
    tick, act.
  rewrite Hfuse, Hspv, bool_decide_eq_false_2 by (by intros [? ?]).
  cbn [negb]. by rewrite Hfuse.
Qed.

(** The program left to run on an input file and a destination that can be
    opened. *)
Lemma main_runs (prog spv_file header_file var_name : string)
    (w : world) (spv_data : list byte) :
  fuse w = None →
  fs w !! spv_file = Some (File spv_data) →
  fs w !! header_file ≠ Some Dir →
  header_file ∉ refused w →
  ∃ w',
    main latin1_lf upper flushed [prog; spv_file; header_file; var_name] w = (Ok (), w')
    ∧ fs w' = <[header_file :=
                  File (encode (header_text upper spv_file var_name spv_data))]>
                (fs w)
    ∧ stdout w' = stdout w +:+
        ("Generated " +:+ header_file +:+ " ("
           +:+ str_of_nat (length spv_data) +:+ " bytes)") +:+ LF
    ∧ stderr w' = stderr w.
Proof.
  intros Hfuse Hspv Hhdr Href.
  destruct (main_spec prog spv_file header_file var_name w spv_data)
    as (r & w' & Hrun & _ & Herr & Hok & Hr); [done..|].
  rewrite (Hok Hfuse) in *. destruct Hr as (Hfs & Hout & _).
  by exists w'.
Qed.

(** The text of the header, piece after piece. *)
Lemma header_text_unfold (spv_file var_name : string) (spv_data : list byte) :
  header_text upper spv_file var_name spv_data
  = "// Auto-generated from " +:+ basename spv_file +:+ LF
    +:+ "// DO NOT EDIT!" +:+ LF +:+ LF
    +:+ "#ifndef SHADER_" +:+ upper var_name +:+ "_H" +:+ LF
    +:+ "#define SHADER_" +:+ upper var_name +:+ "_H" +:+ LF +:+ LF
    +:+ "#include <cstdint>" +:+ LF
    +:+ "#include <cstddef>" +:+ LF +:+ LF
    +:+ "namespace Shaders {" +:+ LF +:+ LF
    +:+ "constexpr size_t " +:+ var_name +:+ "_size = "
    +:+ str_of_nat (length spv_data) +:+ ";" +:+ LF +:+ LF
    +:+ "constexpr uint8_t " +:+ var_name +:+ "_data[] = {" +:+ LF
    +:+ body_text spv_data
    +:+ "};" +:+ LF +:+ LF
    +:+ "} // namespace Shaders" +:+ LF +:+ LF
    +:+ "#endif // SHADER_" +:+ upper var_name +:+ "_H" +:+ LF.
Proof.
  unfold header_text, header_chunks, body_text.
  rewrite <- !app_comm_cons, !concat_empty_cons, app_nil_l, concat_empty_app.
  rewrite !concat_empty_cons. cbn [String.concat].
  rewrite !append_assoc. reflexivity.
Qed.

(** ** Claims on the header and on the run *)

(** C3. Size invariant: in the header a run leaves at the destination, the
    size constant is the length of the input written as a decimal literal:
    read back from the text of the file, the literal is that length.  For
    the empty input the literal is [0] and the opening of the array is
    followed at once by its closing brace. *)
Theorem size_constant (prog spv_file header_file var_name : string)
    (w : world) (spv_data : list byte) :
  fuse w = None →
  fs w !! spv_file = Some (File spv_data) →
  fs w !! header_file ≠ Some Dir →
  header_file ∉ refused w →
  let run := main latin1_lf upper flushed [prog; spv_file; header_file; var_name] w in
  let lead :=
    "// Auto-generated from " +:+ basename spv_file +:+ LF
    +:+ "// DO NOT EDIT!" +:+ LF +:+ LF
    +:+ "#ifndef SHADER_" +:+ upper var_name +:+ "_H" +:+ LF
    +:+ "#define SHADER_" +:+ upper var_name +:+ "_H" +:+ LF +:+ LF
    +:+ "#include <cstdint>" +:+ LF
    +:+ "#include <cstddef>" +:+ LF +:+ LF
    +:+ "namespace Shaders {" +:+ LF +:+ LF
    +:+ "constexpr size_t " +:+ var_name +:+ "_size = " in
  ∃ text,
    fs run.2 !! header_file = Some (File (encode text))
    ∧ read_size_constant lead text = Some (length spv_data)
    ∧ (spv_data = [] →
       after_prefix lead text
       = Some ("0;" +:+ LF +:+ LF
               +:+ "constexpr uint8_t " +:+ var_name +:+ "_data[] = {" +:+ LF
               +:+ "};" +:+ LF +:+ LF
               +:+ "} // namespace Shaders" +:+ LF +:+ LF
               +:+ "#endif // SHADER_" +:+ upper var_name +:+ "_H" +:+ LF)).
Proof.
  intros Hfuse Hspv Hhdr Href run lead.
  destruct (main_runs prog spv_file header_file var_name w spv_data)
    as (w' & Hrun & Hfs & _); [done..|].
  exists (header_text upper spv_file var_name spv_data).
  subst run. rewrite Hrun. cbn [snd]. split; [by rewrite Hfs, lookup_insert_eq |].
  assert (Htext : header_text upper spv_file var_name spv_data
                  = lead +:+ str_of_nat (length spv_data)
                      +:+ String ";" (LF +:+ LF
                      +:+ "constexpr uint8_t " +:+ var_name +:+ "_data[] = {" +:+ LF
                      +:+ body_text spv_data
                      +:+ "};" +:+ LF +:+ LF
                      +:+ "} // namespace Shaders" +:+ LF +:+ LF
                      +:+ "#endif // SHADER_" +:+ upper var_name +:+ "_H" +:+ LF)).
  { rewrite header_text_unfold. subst lead. by rewrite !append_assoc. }
  rewrite Htext. unfold read_size_constant. rewrite after_prefix_app.
  split.
  - cbn. rewrite before_mark_free by apply str_of_nat_free.
    unfold nat_of_str, str_of_nat. rewrite NilEmpty.usu. cbn.
    by rewrite Unsigned.of_to.
  - by intros ->.
Qed.


(** C5. Output template: a run on an input file, with a destination that
    can be opened, leaves at the destination exactly, in this order: the
    comment naming the base name of the input, the do-not-edit comment, the
    guard pair, the two includes, the opening of the namespace, the size
    constant, the array with its rows, the closing of the namespace and the
    [#endif] of the guard. *)
Theorem output_template (prog spv_file header_file var_name : string)
    (w : world) (spv_data : list byte) :
  fuse w = None →
  fs w !! spv_file = Some (File spv_data) →
  fs w !! header_file ≠ Some Dir →
  header_file ∉ refused w →
  let run := main latin1_lf upper flushed [prog; spv_file; header_file; var_name] w in
  exit_code run.1 = Some 0%Z
  ∧ fs run.2 !! header_file
    = Some (File (encode (
        "// Auto-generated from " +:+ basename spv_file +:+ LF
        +:+ "// DO NOT EDIT!" +:+ LF +:+ LF
        +:+ "#ifndef SHADER_" +:+ upper var_name +:+ "_H" +:+ LF
        +:+ "#define SHADER_" +:+ upper var_name +:+ "_H" +:+ LF +:+ LF
        +:+ "#include <cstdint>" +:+ LF
        +:+ "#include <cstddef>" +:+ LF +:+ LF
        +:+ "namespace Shaders {" +:+ LF +:+ LF
        +:+ "constexpr size_t " +:+ var_name +:+ "_size = "
        +:+ str_of_nat (length spv_data) +:+ ";" +:+ LF +:+ LF
        +:+ "constexpr uint8_t " +:+ var_name +:+ "_data[] = {" +:+ LF
        +:+ body_text spv_data
        +:+ "};" +:+ LF +:+ LF
        +:+ "} // namespace Shaders" +:+ LF +:+ LF
        +:+ "#endif // SHADER_" +:+ upper var_name +:+ "_H" +:+ LF))).
Proof.
  intros Hfuse Hspv Hhdr Href run.
  destruct (main_runs prog spv_file header_file var_name w spv_data)
    as (w' & Hrun & Hfs & _); [done..|].
  subst run. rewrite Hrun. cbn [fst snd exit_code]. split; [done |].
  by rewrite Hfs, lookup_insert_eq, header_text_unfold.
Qed.

(** C7, as the script does it.  The text is written in place: the
    destination itself is opened, which empties it, and the text is
    appended to it.  Wherever the run is cut, the destination is untouched
    or holds a prefix of the text, and no other path is created or changed;
    a run left alone puts the whole text there. *)
Theorem write_in_place (prog spv_file header_file var_name : string)
    (w : world) (spv_data : list byte) :
  fs w !! spv_file = Some (File spv_data) →
  fs w !! header_file ≠ Some Dir →
  header_file ∉ refused w →
  let text := encode (header_text upper spv_file var_name spv_data) in
  let w' := (main latin1_lf upper flushed [prog; spv_file; header_file; var_name] w).2 in
  (∀ path, path ≠ header_file → fs w' !! path = fs w !! path)
  ∧ (fs w' !! header_file = fs w !! header_file
     ∨ ∃ disk, fs w' !! header_file = Some (File disk) ∧ disk `prefix_of` text)
  ∧ (fuse w = None → fs w' !! header_file = Some (File text)).
Proof.
  intros Hspv Hhdr Href text w'.
  destruct (main_spec prog spv_file header_file var_name w spv_data)
    as (r & w1 & Hrun & _ & _ & Hok & Hr); [done..|].
  subst w'. rewrite Hrun. cbn [snd].
  destruct r as [[]|e].
  - destruct Hr as (Hfs & _). rewrite Hfs. split; [| split].
    + intros path Hne. by rewrite lookup_insert_ne.
    + right. exists text. by rewrite lookup_insert_eq.
    + intros _. by rewrite lookup_insert_eq.
  - destruct Hr as (-> & [Hfs | (disk & Hfs & Hpre)]); rewrite Hfs.
    + split; [done |]. split; [by left |]. intros Hfuse. by specialize (Hok Hfuse).
    + split; [| split].
      * intros path Hne. by rewrite lookup_insert_ne.
      * right. exists disk. by rewrite lookup_insert_eq.
      * intros Hfuse. by specialize (Hok Hfuse).
Qed.

(** C8, as the script does it.  When the input path names nothing, the
    run prints the error message on standard output, writes nothing on
    standard error, ends with exit code 1 and leaves every file as it
    was. *)
Theorem missing_input_fails (prog spv_file header_file var_name : string)
    (w : world) :
  fuse w = None →
  fs w !! spv_file = None →
  let run := main latin1_lf upper flushed [prog; spv_file; header_file; var_name] w in
  exit_code run.1 = Some 1%Z
  ∧ stdout run.2 = stdout w +:+ ("Error: " +:+ spv_file +:+ " not found") +:+ LF
  ∧ stderr run.2 = stderr w
  ∧ fs run.2 = fs w.
Proof.
  intros Hfuse Hspv run. subst run. by rewrite main_missing.
Qed.

(** C9, as the script does it.  Called with a number of arguments other
    than three, the run prints the usage message on standard output, writes
    nothing on standard error, ends with exit code 1 and leaves every file
    as it was. *)
Theorem wrong_argument_count_fails (argv : list string) (w : world) :
  fuse w = None →
  length argv ≠ 4 →
  let run := main latin1_lf upper flushed argv w in
  exit_code run.1 = Some 1%Z
  ∧ stdout run.2
    = stdout w
        +:+ "Usage: spv_to_header.py <input.spv> <output.h> <variable_name>"
        +:+ LF
  ∧ stderr run.2 = stderr w
  ∧ fs run.2 = fs w.
Proof.
  intros Hfuse Hlen run. subst run. by rewrite main_usage.
Qed.

End Run.

(** ** Runs left alone, on any platform *)

Lemma encode_with_app (layer : text_layer) (s t : string) :
  encode_with layer (s +:+ t)
  = match encode_with layer s, encode_with layer t with
    | Some bytes, Some bytes' => Some (bytes ++ bytes')
    | _, _ => None
    end.
Proof.
  induction s as [|c s IH].
  { rewrite append_nil_l. cbn [encode_with].
    by destruct (encode_with layer t). }
  rewrite append_cons. cbn [encode_with]. rewrite IH.
  destruct (layer c) as [b|]; [| done].
  destruct (encode_with layer s) as [bs|]; [| done].
  destruct (encode_with layer t) as [bt|]; [| done].
  by rewrite app_assoc.
Qed.

(** When the whole text can be encoded, the block writes its bytes and
    does not fail. *)
Lemma block_of_encodable (layer : text_layer) (chunks : list string)
    (bytes : list byte) :
  encode_with layer (String.concat "" chunks) = Some bytes →
  block_bytes layer chunks = bytes ∧ block_failure layer chunks = None.
Proof.
  revert bytes. induction chunks as [|chunk chunks IH]; intros bytes.
  - by intros [= <-].
  - rewrite concat_empty_cons, encode_with_app. cbn [block_bytes block_failure].
    destruct (encode_with layer chunk) as [b|]; [| done].
    destruct (encode_with layer (String.concat "" chunks)) as [bs|]; [| done].
    intros [= <-]. by destruct (IH bs eq_refl) as [-> ->].
Qed.

Section Alone.
Variable layer : text_layer.
Variable upper : string → string.
Variable flushed : nat → nat.

(** The block of the [with] statement, in a process left alone. *)
Lemma write_all_alone (fs0 : gmap string node) (chunks : list string) :
  ∀ (f : handle) (w : world) (disk : list byte),
    fuse w = None →
    fs w = <[h_path f := File disk]> fs0 →
    ∃ f' disk',
      write_all layer flushed f chunks w
      = (Ok (f', block_failure layer chunks),
         World (<[h_path f := File disk']> fs0) (refused w) (stdout w)
           (stderr w) None)
      ∧ h_path f' = h_path f
      ∧ disk' ++ h_pending f' = disk ++ h_pending f ++ block_bytes layer chunks.
Proof.
  induction chunks as [|chunk chunks IH]; intros f w disk Hfuse Hfs.
  { exists f, disk. destruct w as [m ref out err fz]; cbn in *. subst m fz.
    by rewrite app_nil_r. }
  cbn [write_all block_bytes block_failure].
  unfold f_write, mbind, M_bind, tick, act. rewrite Hfuse.
  destruct (encode_with layer chunk) as [bytes|].
  - set (pending := h_pending f ++ bytes). set (n := flushed (h_writes f)).
    destruct (IH (Handle (h_path f) (drop n pending) (S (h_writes f)))
                (to_disk (h_path f) (take n pending) w)
                (disk ++ take n pending))
      as (f' & disk' & Hrun & Hpath & Hdisk).
    { unfold to_disk. rewrite Hfs, lookup_insert_eq. exact Hfuse. }
    { unfold to_disk. rewrite Hfs, lookup_insert_eq. cbn.
      by rewrite insert_insert_eq. }
    exists f', disk'. split; [| split; [done |]].
    + rewrite Hrun. unfold to_disk. by rewrite Hfs, lookup_insert_eq.
    + rewrite Hdisk. cbn [h_pending]. unfold pending.
      rewrite <- !app_assoc. f_equal. rewrite (app_assoc (take n _)), take_drop.
      by rewrite <- app_assoc.
  - exists f, disk. destruct w as [m ref out err fz]; cbn in *. subst m fz.
    by rewrite app_nil_r.
Qed.

(** The program left alone on an input file and a destination that can be
    opened, on any platform: the destination receives what the block gets
    to write, and the run reports or lets the exception of the block
    through. *)
Lemma main_alone (prog spv_file header_file var_name : string)
    (w : world) (spv_data : list byte) :
  fuse w = None →
  fs w !! spv_file = Some (File spv_data) →
  fs w !! header_file ≠ Some Dir →
  header_file ∉ refused w →
  let chunks := header_chunks upper spv_file var_name spv_data in
  main layer upper flushed [prog; spv_file; header_file; var_name] w
  = (match block_failure layer chunks with
     | Some e => Raise e
     | None => Ok ()
     end,
     World (<[header_file := File (block_bytes layer chunks)]> (fs w))
       (refused w)
       (match block_failure layer chunks with
        | Some _ => stdout w
        | None =>
            stdout w +:+
              ("Generated " +:+ header_file +:+ " ("
                 +:+ str_of_nat (length spv_data) +:+ " bytes)") +:+ LF
        end)
       (stderr w) None).
Proof.
  intros Hfuse Hspv Hhdr Href chunks.
  destruct w as [m ref out err fz]. cbn [fs refused stdout stderr fuse] in *.
  subst fz.
  destruct (write_all_alone m chunks (Handle header_file [] 0)
              (World (<[header_file := File []]> m) ref out err None) []
              eq_refl eq_refl)
    as (f' & disk' & Hrun & Hpath & Hdisk).
  cbn [fs refused stdout stderr fuse h_path h_pending app] in *.
  unfold main. cbn [length].
  rewrite bool_decide_eq_false_2 by (intros ?; done).
  cbn [argv_at lookup list_lookup].
  unfold os_path_exists, spv_to_header, read_binary, open_w, f_close, print,
    raise, mbind, M_bind, mret, M_ret, tick, act.
  cbn [fs refused stdout stderr fuse with_fs with_fuse with_stdout].
  rewrite Hspv, bool_decide_eq_true_2 by done.
  cbn [negb fs refused stdout stderr fuse with_fs with_fuse with_stdout].
  rewrite Hspv.
  cbn [fs refused stdout stderr fuse with_fs with_fuse with_stdout].
  rewrite bool_decide_eq_false_2 by done.
  destruct (m !! header_file) as [[content|]|]; [| by destruct Hhdr |].
  all: cbn [fs refused stdout stderr fuse with_fs with_fuse with_stdout].
  all: fold chunks; unfold with_fs at 1;
    cbn [fs refused stdout stderr fuse]; rewrite Hrun.
  all: cbn [fst snd fs refused stdout stderr fuse with_fs with_fuse with_stdout].
  all: unfold to_disk; cbn [fs]; rewrite Hpath, lookup_insert_eq.
  all: cbn [fs refused stdout stderr fuse with_fs with_fuse with_stdout].
  all: rewrite insert_insert_eq, Hdisk.
  all: by destruct (block_failure layer chunks).
Qed.
End Alone.

(** ** Determinism *)

(** C6, as the script does it.  Two runs on the same platform, on the same
    bytes, with the same name and the same base name of the input file,
    leave the same bytes at their destinations, whatever the directories of
    the input and the destination, the other files, the earlier output on
    the streams and the way the runtime flushes its buffer. *)
Theorem render_deterministic (layer : text_layer) (upper : string → string)
    (flushed1 flushed2 : nat → nat)
    (prog1 prog2 spv_file1 spv_file2 header_file1 header_file2 var_name : string)
    (w1 w2 : world) (spv_data : list byte) :
  fuse w1 = None → fuse w2 = None →
  fs w1 !! spv_file1 = Some (File spv_data) →
  fs w2 !! spv_file2 = Some (File spv_data) →
  basename spv_file1 = basename spv_file2 →
  fs w1 !! header_file1 ≠ Some Dir → header_file1 ∉ refused w1 →
  fs w2 !! header_file2 ≠ Some Dir → header_file2 ∉ refused w2 →
  let run1 :=
    main layer upper flushed1 [prog1; spv_file1; header_file1; var_name] w1 in
  let run2 :=
    main layer upper flushed2 [prog2; spv_file2; header_file2; var_name] w2 in
  is_Some (fs run1.2 !! header_file1)
  ∧ fs run1.2 !! header_file1 = fs run2.2 !! header_file2
  ∧ exit_code run1.1 = exit_code run2.1.
Proof.
  intros Hfuse1 Hfuse2 Hspv1 Hspv2 Hbase Hhdr1 Href1 Hhdr2 Href2 run1 run2.
  subst run1 run2.
  rewrite (main_alone layer upper flushed1 prog1 spv_file1 header_file1
             var_name w1 spv_data) by done.
  rewrite (main_alone layer upper flushed2 prog2 spv_file2 header_file2
             var_name w2 spv_data) by done.
  cbn [fst snd fs].
  replace (header_chunks upper spv_file2 var_name spv_data)
    with (header_chunks upper spv_file1 var_name spv_data)
    by (unfold header_chunks; by rewrite Hbase).
  by rewrite !lookup_insert_eq.
Qed.

(** ** Names *)

(** C10, as the script does it.  No name is refused by the script itself:
    whatever the name, and on any platform, a run on an input file, with a
    destination that can be opened, returns without raising as soon as
    the platform can encode the text of the header; the name stands as it
    is in the two symbols and uppercased in the guard. *)
Theorem any_name_accepted (layer : text_layer) (upper : string → string)
    (flushed : nat → nat) (prog spv_file header_file var_name : string)
    (w : world) (spv_data : list byte) :
  fuse w = None →
  fs w !! spv_file = Some (File spv_data) →
  fs w !! header_file ≠ Some Dir →
  header_file ∉ refused w →
  is_Some (encode_with layer (header_text upper spv_file var_name spv_data)) →
  let run := main layer upper flushed [prog; spv_file; header_file; var_name] w in
  let chunks := header_chunks upper spv_file var_name spv_data in
  run.1 = Ok ()
  ∧ fs run.2 !! header_file
    = File <$> encode_with layer (String.concat "" chunks)
  ∧ chunks !! 7
    = Some ("constexpr size_t " +:+ var_name +:+ "_size = "
              +:+ str_of_nat (length spv_data) +:+ ";" +:+ LF +:+ LF)
  ∧ chunks !! 8
    = Some ("constexpr uint8_t " +:+ var_name +:+ "_data[] = {" +:+ LF)
  ∧ chunks !! 2
    = Some ("#ifndef " +:+ ("SHADER_" +:+ upper var_name +:+ "_H") +:+ LF).
Proof.
  intros Hfuse Hspv Hhdr Href [bytes Hbytes] run chunks. subst run.
  rewrite (main_alone layer upper flushed prog spv_file header_file var_name
             w spv_data) by done.
  fold chunks. unfold header_text in Hbytes. fold chunks in Hbytes.
  destruct (block_of_encodable layer chunks bytes Hbytes) as [-> ->].
  cbn [fst snd fs]. rewrite lookup_insert_eq, Hbytes. done.
Qed.

(** ** Concrete runs of the script *)

Lemma size_constant_witness :
  let run := main latin1_lf ascii_upper flush_five
               [script; "void.spv"; "void.h"; "empty"] empty_dir in
  let lead :=
    "// Auto-generated from " +:+ basename "void.spv" +:+ LF
    +:+ "// DO NOT EDIT!" +:+ LF +:+ LF
    +:+ "#ifndef SHADER_" +:+ ascii_upper "empty" +:+ "_H" +:+ LF
    +:+ "#define SHADER_" +:+ ascii_upper "empty" +:+ "_H" +:+ LF +:+ LF
    +:+ "#include <cstdint>" +:+ LF
    +:+ "#include <cstddef>" +:+ LF +:+ LF
    +:+ "namespace Shaders {" +:+ LF +:+ LF
    +:+ "constexpr size_t " +:+ "empty" +:+ "_size = " in
  ∃ text,
    fs run.2 !! "void.h" = Some (File (encode text))
    ∧ read_size_constant lead text = Some 0
    ∧ (@nil byte = [] →
       after_prefix lead text
       = Some ("0;" +:+ LF +:+ LF
               +:+ "constexpr uint8_t " +:+ "empty" +:+ "_data[] = {" +:+ LF
               +:+ "};" +:+ LF +:+ LF
               +:+ "} // namespace Shaders" +:+ LF +:+ LF
               +:+ "#endif // SHADER_" +:+ ascii_upper "empty" +:+ "_H" +:+ LF)).
Proof.
  apply (size_constant ascii_upper flush_five script "void.spv" "void.h"
           "empty" empty_dir []);
    [reflexivity | reflexivity | by vm_compute | by vm_compute].
Defined.


(** The guard of the name [Tri] is that of [tRI]. *)
Example guard_of_mixed_case :
  same_but_case "Tri" "tRI"
  ∧ "SHADER_" +:+ ascii_upper "tRI" +:+ "_H" = "SHADER_TRI_H".
Proof. split; [vm_compute; repeat split; auto | reflexivity]. Qed.

Lemma output_template_witness :
  let run :=
    main latin1_lf ascii_upper flush_five [script; "out/tri.spv"; "gen/tri.h"; "tri"]
      build_dir in
  exit_code run.1 = Some 0%Z
  ∧ fs run.2 !! "gen/tri.h" = Some (File (encode tri_header)).
Proof.
  apply (output_template ascii_upper flush_five script "out/tri.spv"
           "gen/tri.h" "tri" build_dir [x03; x02; x23; x07]);
    [reflexivity | reflexivity | by vm_compute | by vm_compute].
Defined.

Lemma write_in_place_witness :
  let w' :=
    (main latin1_lf ascii_upper flush_five [script; "out/tri.spv"; "gen/tri.h"; "tri"]
       (with_fuse (Some 9) build_dir)).2 in
  (∀ path, path ≠ "gen/tri.h" → fs w' !! path = fs build_dir !! path)
  ∧ (fs w' !! "gen/tri.h" = fs build_dir !! "gen/tri.h"
     ∨ ∃ disk, fs w' !! "gen/tri.h" = Some (File disk)
         ∧ disk `prefix_of` encode tri_header)
  ∧ (Some 9 = None → fs w' !! "gen/tri.h" = Some (File (encode tri_header))).
Proof.
  apply (write_in_place ascii_upper flush_five script "out/tri.spv"
           "gen/tri.h" "tri" (with_fuse (Some 9) build_dir) [x03; x02; x23; x07]);
    [reflexivity | by vm_compute | by vm_compute].
Defined.

Lemma missing_input_fails_witness :
  let run :=
    main latin1_lf ascii_upper flush_five [script; "out/none.spv"; "gen/tri.h"; "tri"]
      build_dir in
  exit_code run.1 = Some 1%Z
  ∧ stdout run.2 = "Error: out/none.spv not found" +:+ LF
  ∧ stderr run.2 = ""
  ∧ fs run.2 = fs build_dir.
Proof.
  apply (missing_input_fails ascii_upper flush_five script "out/none.spv"
           "gen/tri.h" "tri" build_dir);
    reflexivity.
Defined.

Lemma wrong_argument_count_fails_witness :
  let run := main latin1_lf ascii_upper flush_five [script; "out/tri.spv"; "gen/tri.h"]
               build_dir in
  exit_code run.1 = Some 1%Z
  ∧ stdout run.2
    = "Usage: spv_to_header.py <input.spv> <output.h> <variable_name>" +:+ LF
  ∧ stderr run.2 = ""
  ∧ fs run.2 = fs build_dir.
Proof.
  apply (wrong_argument_count_fails ascii_upper flush_five
           [script; "out/tri.spv"; "gen/tri.h"] build_dir);
    [reflexivity | by vm_compute].
Defined.

Lemma any_name_accepted_witness :
  let run :=
    main cp1252_crlf ascii_upper flush_at_close
      [script; "out/tri.spv"; "gen/odd.h"; "2 bad-name!"] build_dir in
  let chunks := header_chunks ascii_upper "out/tri.spv" "2 bad-name!"
                  [x03; x02; x23; x07] in
  run.1 = Ok ()
  ∧ fs run.2 !! "gen/odd.h"
    = File <$> encode_with cp1252_crlf (String.concat "" chunks)
  ∧ chunks !! 7 = Some ("constexpr size_t 2 bad-name!_size = 4;" +:+ LF +:+ LF)
  ∧ chunks !! 8 = Some ("constexpr uint8_t 2 bad-name!_data[] = {" +:+ LF)
  ∧ chunks !! 2 = Some ("#ifndef SHADER_2 BAD-NAME!_H" +:+ LF).
Proof.
  apply (any_name_accepted cp1252_crlf ascii_upper flush_at_close script
           "out/tri.spv" "gen/odd.h" "2 bad-name!" build_dir
           [x03; x02; x23; x07]);
    [reflexivity | reflexivity | by vm_compute | by vm_compute
    | vm_compute; by eexists].
Defined.

Lemma render_deterministic_witness :
  let run1 :=
    main cp1252_crlf ascii_upper flush_at_close
      [script; "out/tri.spv"; "gen/tri.h"; "tri"] build_dir in
  let run2 :=
    main cp1252_crlf ascii_upper flush_five
      ["python3 spv_to_header.py"; "cache/tri.spv"; "tri_shader.h"; "tri"]
      other_dir in
  is_Some (fs run1.2 !! "gen/tri.h")
  ∧ fs run1.2 !! "gen/tri.h" = fs run2.2 !! "tri_shader.h"
  ∧ exit_code run1.1 = exit_code run2.1.
Proof.
  apply (render_deterministic cp1252_crlf ascii_upper flush_at_close flush_five
           script "python3 spv_to_header.py" "out/tri.spv" "cache/tri.spv"
           "gen/tri.h" "tri_shader.h" "tri" build_dir other_dir
           [x03; x02; x23; x07]);
    first [reflexivity | by vm_compute].
Defined.

(** ** Where the script departs from the specification *)

(** C6 as stated fails, twice over.  The same bytes and the same name,
    read from files with different names, give different headers, since
    the first line names the input file.  And the same invocation on two
    platforms gives different bytes, since the header is written in text
    mode: here the line separators differ. *)
Lemma output_depends_on_file_name_and_platform :
  fs build_dir !! "out/tri.spv" = fs build_dir !! "out/quad.spv"
  ∧ fs (main latin1_lf ascii_upper flush_at_close
          [script; "out/tri.spv"; "gen/tri.h"; "tri"] build_dir).2 !! "gen/tri.h"
    ≠ fs (main latin1_lf ascii_upper flush_at_close
            [script; "out/quad.spv"; "gen/tri.h"; "tri"] build_dir).2 !! "gen/tri.h"
  ∧ fs (main latin1_lf ascii_upper flush_at_close
          [script; "out/tri.spv"; "gen/tri.h"; "tri"] build_dir).2 !! "gen/tri.h"
    ≠ fs (main cp1252_crlf ascii_upper flush_at_close
            [script; "out/tri.spv"; "gen/tri.h"; "tri"] build_dir).2 !! "gen/tri.h".
Proof. split; [reflexivity |]. split; by vm_compute. Qed.

(** C10 as stated fails: a name holding a character the codec of the
    platform cannot encode makes the write of the guard raise, although
    the input exists and the destination can be opened; the two comment
    lines written before are left at the destination. *)
Lemma unencodable_name_raises :
  let run :=
    main cp1252_crlf ascii_upper flush_at_close
      [script; "out/tri.spv"; "gen/odd.h"; odd_name] build_dir in
  fs build_dir !! "out/tri.spv" = Some (File [x03; x02; x23; x07])
  ∧ fs build_dir !! "gen/odd.h" = None
  ∧ run.1 = Raise UnicodeEncodeError
  ∧ fs run.2 !! "gen/odd.h"
    = File <$> encode_with cp1252_crlf
                 ("// Auto-generated from tri.spv" +:+ LF
                    +:+ "// DO NOT EDIT!" +:+ LF +:+ LF).
Proof. by vm_compute. Qed.

(** C7 as stated fails: a run killed right after it has opened the
    destination leaves it empty, which is neither the header of the earlier
    build nor the new one. *)
Lemma write_not_atomic :
  ¬ atomic_at "gen/tri.h" build_dir
      (main latin1_lf ascii_upper flush_at_close
         [script; "out/tri.spv"; "gen/tri.h"; "tri"]
         (with_fuse (Some 3) build_dir)).2
      (main latin1_lf ascii_upper flush_at_close
         [script; "out/tri.spv"; "gen/tri.h"; "tri"] build_dir).2.
Proof. intros [Hcut | Hcut]; by vm_compute in Hcut. Qed.

(** C8 as stated fails: with a missing input nothing reaches standard
    error. *)
Lemma missing_input_silent_on_stderr :
  fs build_dir !! "out/none.spv" = None
  ∧ ¬ wrote_to stderr build_dir
        (main latin1_lf ascii_upper flush_at_close
           [script; "out/none.spv"; "gen/tri.h"; "tri"] build_dir).2.
Proof.
  split; [reflexivity |]. intros (message & Hmessage & Hgrew).
  vm_compute in Hgrew. by subst message.
Qed.

(** C9 as stated fails: with two arguments nothing reaches standard
    error. *)
Lemma usage_silent_on_stderr :
  length [script; "out/tri.spv"; "gen/tri.h"] ≠ 4
  ∧ ¬ wrote_to stderr build_dir
        (main latin1_lf ascii_upper flush_at_close
           [script; "out/tri.spv"; "gen/tri.h"] build_dir).2.
Proof.
  split; [by vm_compute |]. intros (message & Hmessage & Hgrew).
  vm_compute in Hgrew. by subst message.
Qed.

(** ** The scenarios of the specification *)

(** Scenario A: twelve bytes, name [test]. *)
Example scenario_A :
  let binary := [x00; x01; x02; x03; x04; x05; x06; x07; x08; x09; x0a; x0b] in
  let chunks := header_chunks ascii_upper "a.spv" "test" binary in
  chunks !! 2 = Some ("#ifndef SHADER_TEST_H" +:+ LF)
  ∧ chunks !! 7 = Some ("constexpr size_t test_size = 12;" +:+ LF +:+ LF)
  ∧ data_rows binary
    = [ "    0x00, 0x01, 0x02, 0x03, 0x04, 0x05, 0x06, 0x07, 0x08, 0x09, 0x0a, 0x0b,"
          +:+ LF ].
Proof. repeat split. Qed.

(** Scenario C: no byte, name [empty]. *)
Example scenario_C :
  header_text ascii_upper "e.spv" "empty" []
  = "// Auto-generated from e.spv" +:+ LF
    +:+ "// DO NOT EDIT!" +:+ LF +:+ LF
    +:+ "#ifndef SHADER_EMPTY_H" +:+ LF
    +:+ "#define SHADER_EMPTY_H" +:+ LF +:+ LF
    +:+ "#include <cstdint>" +:+ LF
    +:+ "#include <cstddef>" +:+ LF +:+ LF
    +:+ "namespace Shaders {" +:+ LF +:+ LF
    +:+ "constexpr size_t empty_size = 0;" +:+ LF +:+ LF
    +:+ "constexpr uint8_t empty_data[] = {" +:+ LF
    +:+ "};" +:+ LF +:+ LF
    +:+ "} // namespace Shaders" +:+ LF +:+ LF
    +:+ "#endif // SHADER_EMPTY_H" +:+ LF.
Proof. reflexivity. Qed.

(** The guard does not depend on the casing of the name. *)
Example guard_ignores_casing :
  header_chunks ascii_upper "a.spv" "TeSt" [] !! 2
  = header_chunks ascii_upper "a.spv" "test" [] !! 2.
Proof. reflexivity. Qed.

(** A run cut after nine operations, under a runtime that hands over five
    bytes per write, leaves the beginning of the first line. *)
Example truncated_header :
  fs (main latin1_lf ascii_upper flush_five [script; "out/tri.spv"; "gen/tri.h"; "tri"]
        (with_fuse (Some 9) build_dir)).2 !! "gen/tri.h"
  = Some (File (encode "// Auto-generated from tri.spv")).
Proof. by vm_compute. Qed.

(** * More on the script *)

(** ** What every step preserves *)

Section Preserves.
Variable keeps : world → world → Prop.
Hypothesis keeps_refl : ∀ w, keeps w w.
Hypothesis keeps_trans : ∀ w1 w2 w3, keeps w1 w2 → keeps w2 w3 → keeps w1 w3.
Hypothesis keeps_fuse : ∀ w k, keeps w (with_fuse k w).

Lemma preserves_ret {A} (good : A → Prop) (a : A) :
  good a → preserves keeps good (mret a).
Proof. intros Ha w. split; [apply keeps_refl |]. by intros a' [= <-]. Qed.

Lemma preserves_raise {A} (good : A → Prop) (e : exn) :
  preserves keeps good (raise e).
Proof. intros w. split; [apply keeps_refl | done]. Qed.

Lemma preserves_bind {A B} (good : A → Prop) (better : B → Prop)
    (m : M A) (k : A → M B) :
  preserves keeps good m →
  (∀ a, good a → preserves keeps better (k a)) →
  preserves keeps better (m ≫= k).
Proof.
  intros Hm Hk w. unfold mbind, M_bind.
  destruct (Hm w) as [Hw Ha]. destruct (m w) as [[a|e] w1]; cbn [fst snd] in *.
  - destruct (Hk a (Ha a eq_refl) w1) as [Hw1 Hb].
    split; [by eapply keeps_trans | done].
  - done.
Qed.

Lemma preserves_raise_bind {A B} (better : B → Prop) (e : exn) (k : A → M B) :
  preserves keeps better (raise e ≫= k).
Proof. intros w. split; [apply keeps_refl | done]. Qed.

Lemma preserves_ret_bind {A B} (better : B → Prop) (a : A) (k : A → M B) :
  preserves keeps better (k a) → preserves keeps better (mret a ≫= k).
Proof. intros Hk w. exact (Hk w). Qed.

Lemma preserves_tick : preserves keeps (λ _, True) tick.
Proof.
  intros w. unfold tick. destruct (fuse w) as [[|k]|]; cbn [fst snd];
    (split; [| done]); first [apply keeps_refl | apply keeps_fuse].
Qed.

(** A step that comes after the tick and keeps the relation. *)
Lemma preserves_step {A} (good : A → Prop) (step : world → outcome A * world) :
  (∀ w, keeps w (step w).2 ∧ ∀ a, (step w).1 = Ok a → good a) →
  preserves keeps good (tick;; act step).
Proof.
  intros Hstep. eapply preserves_bind; [apply preserves_tick |].
  intros _ _. exact Hstep.
Qed.
End Preserves.

(** ** What a run prints *)

Section Quiet.
Variable upper : string → string.
Variable flushed : nat → nat.

Lemma quiet_refl (w : world) : quiet w w.
Proof. done. Qed.

Lemma quiet_trans (w1 w2 w3 : world) : quiet w1 w2 → quiet w2 w3 → quiet w1 w3.
Proof. unfold quiet. congruence. Qed.

Lemma quiet_fuse (w : world) (k : option nat) : quiet w (with_fuse k w).
Proof. done. Qed.

Lemma quiet_to_disk (p : string) (bytes : list byte) (w : world) :
  quiet w (to_disk p bytes w).
Proof. unfold to_disk. by destruct (fs w !! p) as [[content|]|]. Qed.

Lemma read_binary_quiet (p : string) :
  preserves quiet (λ _, True) (read_binary p).
Proof.
  apply preserves_step; [apply quiet_refl | apply quiet_trans | apply quiet_fuse |].
  intros w. by destruct (fs w !! p) as [[content|]|].
Qed.

Lemma open_w_quiet (p : string) : preserves quiet (λ _, True) (open_w p).
Proof.
  apply preserves_step; [apply quiet_refl | apply quiet_trans | apply quiet_fuse |].
  intros w. destruct (fs w !! p) as [[content|]|]; [| done |]; by case_bool_decide.
Qed.

Lemma f_write_quiet (f : handle) (s : string) :
  preserves quiet (λ _, True) (f_write latin1_lf flushed f s).
Proof.
  apply preserves_step; [apply quiet_refl | apply quiet_trans | apply quiet_fuse |].
  intros w. rewrite encode_with_latin1. split; [apply quiet_to_disk | done].
Qed.

Lemma f_close_quiet (f : handle) : preserves quiet (λ _, True) (f_close f).
Proof.
  apply preserves_step; [apply quiet_refl | apply quiet_trans | apply quiet_fuse |].
  intros w. split; [apply quiet_to_disk | done].
Qed.

Lemma write_all_quiet (chunks : list string) (f : handle) :
  preserves quiet (λ _, True) (write_all latin1_lf flushed f chunks).
Proof.
  revert f. induction chunks as [|chunk chunks IH]; intros f; cbn [write_all].
  - by apply preserves_ret; [apply quiet_refl |].
  - intros w. destruct (f_write_quiet f chunk w) as [Hw _].
    destruct (f_write latin1_lf flushed f chunk w) as [[f'|e] w1];
      cbn [fst snd] in *.
    + destruct (IH f' w1) as [Hw1 _]. split; [by eapply quiet_trans | done].
    + by destruct e.
Qed.

Lemma silent_failure_bind {A B} (good : A → Prop) (m : M A) (k : A → M B) :
  preserves quiet good m →
  (∀ a, good a → silent_failure (k a)) →
  silent_failure (m ≫= k).
Proof.
  intros Hm Hk w e. unfold mbind, M_bind.
  destruct (Hm w) as [Hw Ha]. destruct (m w) as [[a|e'] w1]; cbn [fst snd] in *.
  - intros Hraise. rewrite (Hk a (Ha a eq_refl) w1 e Hraise). exact Hw.
  - intros _. exact Hw.
Qed.

Lemma print_silent_failure (s : string) : silent_failure (print s).
Proof.
  intros w e. unfold print, mbind, M_bind, tick, act.
  by destruct (fuse w) as [[|k]|].
Qed.

(** [spv_to_header] prints only as its last step. *)
Lemma spv_to_header_silent_failure (spv_file header_file var_name : string) :
  silent_failure (spv_to_header latin1_lf upper flushed spv_file header_file var_name).
Proof.
  unfold spv_to_header.
  eapply silent_failure_bind; [apply read_binary_quiet |]. intros spv_data _.
  eapply silent_failure_bind; [apply open_w_quiet |]. intros f _.
  eapply silent_failure_bind; [apply write_all_quiet |]. intros block _.
  eapply silent_failure_bind; [apply f_close_quiet |]. intros _ _.
  destruct (block.2) as [e|]; [by intros w e' _ | apply print_silent_failure].
Qed.

(** The program called with three arguments, the first of which names
    something: the check passes and [spv_to_header] runs. *)
Lemma main_found (prog spv_file header_file var_name : string) (w : world) :
  is_Some (fs w !! spv_file) →
  main latin1_lf upper flushed [prog; spv_file; header_file; var_name] w
  = match fuse w with
    | Some O => (Raise Killed, w)
    | Some (S k) =>
        spv_to_header latin1_lf upper flushed spv_file header_file var_name
          (with_fuse (Some k) w)
    | None => spv_to_header latin1_lf upper flushed spv_file header_file var_name w
    end.
Proof.
  intros Hfound. unfold main. cbn [length].
  rewrite bool_decide_eq_false_2 by (intros ?; done).
  cbn [argv_at lookup list_lookup].
  unfold os_path_exists, mbind, M_bind, mret, M_ret, tick, act. cbv beta.
  destruct (fuse w) as [[|k]|]; [done | |]; cbn [fs with_fuse];
    by rewrite bool_decide_eq_true_2.
Qed.

(** The program left to run on an input path that names a directory. *)
Lemma main_input_dir (prog spv_file header_file var_name : string) (w : world) :
  fuse w = None →
  fs w !! spv_file = Some Dir →
  main latin1_lf upper flushed [prog; spv_file; header_file; var_name] w
  = (Raise (IsADirectoryError spv_file), w).
Proof.
  intros Hfuse Hspv. rewrite main_found, Hfuse by (by rewrite Hspv).
  unfold spv_to_header, read_binary, mbind, M_bind, tick, act.
  rewrite Hfuse. cbv beta iota. by rewrite Hspv.
Qed.

(** The program left to run on an input file and a destination that cannot
    be opened. *)
Lemma main_unopenable (prog spv_file header_file var_name : string)
    (w : world) (spv_data : list byte) :
  fuse w = None →
  fs w !! spv_file = Some (File spv_data) →
  fs w !! header_file = Some Dir ∨ header_file ∈ refused w →
  main latin1_lf upper flushed [prog; spv_file; header_file; var_name] w
  = (Raise (if fs w !! header_file is Some Dir
            then IsADirectoryError header_file else OSError header_file), w).
Proof.
  intros Hfuse Hspv Hhdr. rewrite main_found, Hfuse by (by rewrite Hspv).
  unfold spv_to_header, read_binary, open_w, mbind, M_bind, tick, act.
  rewrite Hfuse, Hspv. cbv beta iota. rewrite Hfuse.
  destruct (fs w !! header_file) as [[content|]|] eqn:Hnode; [| done |];
    (destruct Hhdr as [? | Href]; [done |]); by rewrite bool_decide_eq_true_2.
Qed.

(** The world a run left alone ends in, on an input file and a destination
    that can be opened. *)
Lemma main_runs_world (prog spv_file header_file var_name : string)
    (w : world) (spv_data : list byte) :
  fuse w = None →
  fs w !! spv_file = Some (File spv_data) →
  fs w !! header_file ≠ Some Dir →
  header_file ∉ refused w →
  main latin1_lf upper flushed [prog; spv_file; header_file; var_name] w
  = (Ok (),
     World
       (<[header_file :=
            File (encode (header_text upper spv_file var_name spv_data))]> (fs w))
       (refused w)
       (stdout w +:+
          ("Generated " +:+ header_file +:+ " ("
             +:+ str_of_nat (length spv_data) +:+ " bytes)") +:+ LF)
       (stderr w) None).
Proof.
  intros Hfuse Hspv Hhdr Href.
  destruct (main_spec upper flushed prog spv_file header_file var_name w spv_data)
    as (r & w' & Hrun & Hrefused & Herr & Hok & Hr); [done..|].
  rewrite (Hok Hfuse) in *. destruct Hr as (Hfs & Hout & Hfuse').
  rewrite Hrun. destruct w' as [m ref out err fz]; cbn in *.
  by rewrite Hfs, Hrefused, Hout, Herr, (Hfuse' Hfuse).
Qed.
End Quiet.

(** ** Further properties of the run *)

Section More.
Variable upper : string → string.
Variable flushed : nat → nat.

(** X1. A run left alone on an input file and a destination that can be
    opened ends with exit code 0 and prints one line on standard output,
    naming the destination and the number of bytes of the input. *)
Theorem success_report (prog spv_file header_file var_name : string)
    (w : world) (spv_data : list byte) :
  fuse w = None →
  fs w !! spv_file = Some (File spv_data) →
  fs w !! header_file ≠ Some Dir →
  header_file ∉ refused w →
  let run := main latin1_lf upper flushed [prog; spv_file; header_file; var_name] w in
  exit_code run.1 = Some 0%Z
  ∧ stdout run.2
    = stdout w +:+ "Generated " +:+ header_file +:+ " ("
        +:+ str_of_nat (length spv_data) +:+ " bytes)" +:+ LF.
Proof.
  intros Hfuse Hspv Hhdr Href run. subst run.
  rewrite (main_runs_world upper flushed prog spv_file header_file var_name
             w spv_data) by done.
  cbn [fst snd exit_code stdout]. split; [done |].
  by rewrite !append_assoc.
Qed.

(** X2. When the input path names a directory, the existence check lets
    it through and the read raises [IsADirectoryError]: the run ends with
    exit code 1 without printing the not-found message, and no file is
    created or changed. *)
Theorem input_directory_fails (prog spv_file header_file var_name : string)
    (w : world) :
  fuse w = None →
  fs w !! spv_file = Some Dir →
  let run := main latin1_lf upper flushed [prog; spv_file; header_file; var_name] w in
  run.1 = Raise (IsADirectoryError spv_file)
  ∧ exit_code run.1 = Some 1%Z
  ∧ stdout run.2 = stdout w
  ∧ fs run.2 = fs w.
Proof.
  intros Hfuse Hspv run. subst run. by rewrite main_input_dir.
Qed.

(** X3. When the destination names a directory or cannot be opened, the
    run raises at the [open], after the input has been read: it ends with
    exit code 1, prints nothing, and creates or changes no file. *)
Theorem unopenable_destination_fails
    (prog spv_file header_file var_name : string)
    (w : world) (spv_data : list byte) :
  fuse w = None →
  fs w !! spv_file = Some (File spv_data) →
  fs w !! header_file = Some Dir ∨ header_file ∈ refused w →
  let run := main latin1_lf upper flushed [prog; spv_file; header_file; var_name] w in
  exit_code run.1 = Some 1%Z
  ∧ stdout run.2 = stdout w
  ∧ fs run.2 = fs w.
Proof.
  intros Hfuse Hspv Hhdr run. subst run.
  rewrite (main_unopenable upper flushed prog spv_file header_file var_name
             w spv_data) by done.
  cbn [fst snd]. by destruct (fs w !! header_file) as [[content|]|].
Qed.

(** X7. Whenever the line "Generated ..." has been printed, the
    destination holds the complete header: a run on an input file and a
    destination that can be opened, cut at any point, either has printed
    nothing or has printed that line after the header was written and
    closed. *)
Theorem report_means_complete (prog spv_file header_file var_name : string)
    (w : world) (spv_data : list byte) :
  fs w !! spv_file = Some (File spv_data) →
  fs w !! header_file ≠ Some Dir →
  header_file ∉ refused w →
  let run := main latin1_lf upper flushed [prog; spv_file; header_file; var_name] w in
  stdout run.2 = stdout w
  ∨ (stdout run.2
     = stdout w +:+ "Generated " +:+ header_file +:+ " ("
         +:+ str_of_nat (length spv_data) +:+ " bytes)" +:+ LF
     ∧ fs run.2 !! header_file
       = Some (File (encode (header_text upper spv_file var_name spv_data)))).
Proof.
  intros Hspv Hhdr Href run.
  destruct (main_spec upper flushed prog spv_file header_file var_name w spv_data)
    as (r & w' & Hrun & _ & _ & _ & Hr); [done..|].
  destruct r as [[]|e].
  - right. subst run. rewrite Hrun. cbn [snd].
    destruct Hr as (Hfs & Hout & _). rewrite Hfs, Hout, lookup_insert_eq.
    by rewrite !append_assoc.
  - left. subst run.
    rewrite main_found in Hrun |- * by (by rewrite Hspv).
    destruct (fuse w) as [[|k]|]; [done | |].
    + by rewrite (spv_to_header_silent_failure upper flushed spv_file
                    header_file var_name (with_fuse (Some k) w) e)
        by (by rewrite Hrun).
    + by rewrite (spv_to_header_silent_failure upper flushed spv_file
                    header_file var_name w e) by (by rewrite Hrun).
Qed.

(** X8. The script does not compare its two paths: given the input path
    as destination, a run left alone succeeds and replaces the binary by
    its own header. *)
Theorem input_overwritten_when_same_path (prog path var_name : string)
    (w : world) (spv_data : list byte) :
  fuse w = None →
  fs w !! path = Some (File spv_data) →
  path ∉ refused w →
  let run := main latin1_lf upper flushed [prog; path; path; var_name] w in
  exit_code run.1 = Some 0%Z
  ∧ fs run.2 !! path
    = Some (File (encode (header_text upper path var_name spv_data))).
Proof.
  intros Hfuse Hpath Href run. subst run.
  rewrite (main_runs_world upper flushed prog path path var_name w spv_data)
    by (rewrite ?Hpath; done).
  cbn [fst snd exit_code fs]. by rewrite lookup_insert_eq.
Qed.
End More.


(** ** The width of the rows and the way back from a header *)

Lemma length_append (s t : string) :
  String.length (s +:+ t) = String.length s + String.length t.
Proof.
  induction s as [|c s IH]; [done |].
  rewrite append_cons. cbn [String.length]. by rewrite IH.
Qed.

Lemma length_literals (b : byte) (chunk : list byte) :
  String.length (join ", " (map (λ b, "0x" +:+ format_02x b) (b :: chunk)))
  = 6 * length chunk + 4.
Proof.
  revert b. induction chunk as [|b' chunk IH]; intros b; [done |].
  transitivity
    (String.length
       (("0x" +:+ format_02x b) +:+ ", "
          +:+ join ", " (map (λ b, "0x" +:+ format_02x b) (b' :: chunk))));
    [reflexivity |].
  rewrite !length_append, IH. cbn [length]. unfold format_02x. cbn. lia.
Qed.

Lemma row_text_length (data : list byte) (i : nat) :
  i < length data →
  String.length (row_text data i) = 6 * length (slice data i (i + 12)) + 4.
Proof.
  intros Hi. unfold row_text.
  destruct (slice data i (i + 12)) as [|b chunk] eqn:Hchunk.
  { apply (f_equal length) in Hchunk. unfold slice in Hchunk.
    rewrite length_take, length_drop in Hchunk. simpl in Hchunk. lia. }
  rewrite !length_append, length_literals. cbn [length String.length LF]. lia.
Qed.

Lemma append_inj_r (s t u : string) : s +:+ u = t +:+ u → s = t.
Proof.
  revert t. induction s as [|c s IH]; intros [|d t] Heq.
  - done.
  - apply (f_equal String.length) in Heq.
    rewrite append_cons in Heq. cbn [String.length] in Heq.
    rewrite !length_append in Heq. cbn in Heq. lia.
  - apply (f_equal String.length) in Heq.
    rewrite append_cons in Heq. cbn [String.length] in Heq.
    rewrite !length_append in Heq. cbn in Heq. lia.
  - rewrite !append_cons in Heq. injection Heq as -> Heq.
    by rewrite (IH t Heq).
Qed.

(** Two texts that run up to the first [c] and go on after it are equal
    only part by part. *)
Lemma split_at_mark (c : ascii) (s1 s2 t1 t2 : string) :
  free_of c s1 → free_of c s2 →
  s1 +:+ String c t1 = s2 +:+ String c t2 →
  s1 = s2 ∧ t1 = t2.
Proof.
  revert s2. induction s1 as [|d1 s1 IH]; intros [|d2 s2] Hfree1 Hfree2 Heq.
  - by injection Heq as ->.
  - rewrite append_cons in Heq. injection Heq as <- _. by destruct Hfree2.
  - rewrite append_cons in Heq. injection Heq as -> _. by destruct Hfree1.
  - rewrite !append_cons in Heq. injection Heq as -> Heq.
    destruct Hfree1 as [_ Hfree1], Hfree2 as [_ Hfree2].
    by destruct (IH s2 Hfree1 Hfree2 Heq) as [-> ->].
Qed.

(** X9. Row width: a row of [k] literals is [6 * k + 4] characters long,
    line feed included, so that no row is longer than 76 characters. *)
Theorem row_widths (spv_data : list byte) :
  String.length <$> data_rows spv_data
  = (λ chunk, 6 * length chunk + 4) <$> data_chunks spv_data
  ∧ Forall (λ row, String.length row ≤ 76) (data_rows spv_data).
Proof.
  assert (Hwidths : String.length <$> data_rows spv_data
                    = (λ chunk, 6 * length chunk + 4) <$> data_chunks spv_data).
  { unfold data_rows, data_chunks. rewrite <- !list_fmap_compose.
    apply Forall_fmap_ext, Forall_forall. intros i Hi%range_from_bound.
    by apply row_text_length. }
  split; [done |].
  apply Forall_forall. intros row Hrow. unfold data_rows in Hrow.
  apply list_elem_of_fmap in Hrow as (i & -> & Hi%range_from_bound).
  rewrite row_text_length by done. unfold slice. rewrite length_take. lia.
Qed.

(** X10. Two inputs that give the same header, under the same file name
    and the same symbol name, are the same input: the header determines
    the binary. *)
Theorem header_text_injective (upper : string → string)
    (spv_file var_name : string) (spv_data1 spv_data2 : list byte) :
  header_text upper spv_file var_name spv_data1
  = header_text upper spv_file var_name spv_data2 →
  spv_data1 = spv_data2.
Proof.
  rewrite !header_text_unfold. intros Heq.
  repeat apply (inj (String.append _)) in Heq.
  apply (split_at_mark ";" _ _
           (LF +:+ LF +:+ "constexpr uint8_t " +:+ var_name +:+ "_data[] = {"
              +:+ LF +:+ body_text spv_data1 +:+ "};" +:+ LF +:+ LF
              +:+ "} // namespace Shaders" +:+ LF +:+ LF
              +:+ "#endif // SHADER_" +:+ upper var_name +:+ "_H" +:+ LF)
           (LF +:+ LF +:+ "constexpr uint8_t " +:+ var_name +:+ "_data[] = {"
              +:+ LF +:+ body_text spv_data2 +:+ "};" +:+ LF +:+ LF
              +:+ "} // namespace Shaders" +:+ LF +:+ LF
              +:+ "#endif // SHADER_" +:+ upper var_name +:+ "_H" +:+ LF))
    in Heq as [_ Heq]; [| apply str_of_nat_free..].
  repeat apply (inj (String.append _)) in Heq.
  apply append_inj_r in Heq.
  apply (f_equal decode_body) in Heq. unfold decode_body in Heq.
  rewrite !parse_body_text in Heq. cbn in Heq.
  rewrite !concat_data_chunks in Heq. by injection Heq.
Qed.

(** ** Concrete runs for the further properties *)

Lemma success_report_witness :
  let run := main latin1_lf ascii_upper flush_five
               [script; "out/tri.spv"; "gen/tri.h"; "tri"] build_dir in
  exit_code run.1 = Some 0%Z
  ∧ stdout run.2 = "Generated gen/tri.h (4 bytes)" +:+ LF.
Proof.
  apply (success_report ascii_upper flush_five script "out/tri.spv"
           "gen/tri.h" "tri" build_dir [x03; x02; x23; x07]);
    [reflexivity | reflexivity | by vm_compute | by vm_compute].
Defined.

Lemma input_directory_fails_witness :
  let run := main latin1_lf ascii_upper flush_five
               [script; "shaders"; "tri.h"; "tri"] shader_tree in
  run.1 = Raise (IsADirectoryError "shaders")
  ∧ exit_code run.1 = Some 1%Z
  ∧ stdout run.2 = ""
  ∧ fs run.2 = fs shader_tree.
Proof.
  apply (input_directory_fails ascii_upper flush_five script "shaders"
           "tri.h" "tri" shader_tree);
    reflexivity.
Defined.

Lemma unopenable_destination_fails_witness :
  let run := main latin1_lf ascii_upper flush_five
               [script; "shaders/tri.spv"; "missing/tri.h"; "tri"]
               shader_tree in
  exit_code run.1 = Some 1%Z
  ∧ stdout run.2 = ""
  ∧ fs run.2 = fs shader_tree.
Proof.
  apply (unopenable_destination_fails ascii_upper flush_five script
           "shaders/tri.spv" "missing/tri.h" "tri" shader_tree
           [x03; x02; x23; x07]);
    [reflexivity | reflexivity | right; by vm_compute].
Defined.

Lemma report_means_complete_witness :
  let run := main latin1_lf ascii_upper flush_five
               [script; "out/tri.spv"; "gen/tri.h"; "tri"]
               (with_fuse (Some 17) build_dir) in
  stdout run.2 = ""
  ∨ (stdout run.2 = "Generated gen/tri.h (4 bytes)" +:+ LF
     ∧ fs run.2 !! "gen/tri.h" = Some (File (encode tri_header))).
Proof.
  apply (report_means_complete ascii_upper flush_five script "out/tri.spv"
           "gen/tri.h" "tri" (with_fuse (Some 17) build_dir)
           [x03; x02; x23; x07]);
    [reflexivity | by vm_compute | by vm_compute].
Defined.

Lemma input_overwritten_when_same_path_witness :
  let run := main latin1_lf ascii_upper flush_five
               [script; "out/tri.spv"; "out/tri.spv"; "tri"] build_dir in
  exit_code run.1 = Some 0%Z
  ∧ fs run.2 !! "out/tri.spv" = Some (File (encode tri_header)).
Proof.
  apply (input_overwritten_when_same_path ascii_upper flush_five script
           "out/tri.spv" "tri" build_dir [x03; x02; x23; x07]);
    [reflexivity | reflexivity | by vm_compute].
Defined.

Lemma header_text_injective_witness :
  [x03; x02; x23; x07] = [x03; x02; x23; x07].
Proof.
  apply (header_text_injective ascii_upper "out/tri.spv" "tri"
           [x03; x02; x23; x07] [x03; x02; x23; x07]).
  reflexivity.
Defined.

(** Killed before its last step, the run of [build_dir] has written the
    whole header and printed nothing. *)
Example complete_but_unreported :
  let run := main latin1_lf ascii_upper flush_five
               [script; "out/tri.spv"; "gen/tri.h"; "tri"]
               (with_fuse (Some 17) build_dir) in
  run.1 = Raise Killed
  ∧ stdout run.2 = ""
  ∧ fs run.2 !! "gen/tri.h" = Some (File (encode tri_header)).
Proof. by vm_compute. Qed.
